(** * yahoo-furigana MCP server: chunk splitting, orchestration and formatting

    A shallow embedding of the TypeScript server: the text splitter
    [splitTextIntoChunks], the remote call [getFurigana], the orchestrator
    [processTextWithChunking], the three formatters and the [gen_furigana]
    tool handler, followed by the properties of the specification.

    A JavaScript string is a sequence of UTF-16 code units: [length] and
    [slice] count code units, and [TextEncoder.encode] converts the string to
    UTF-8 (an unpaired surrogate is encoded as U+FFFD).  The while loops of the
    splitter are run with fuel, so that their termination is a theorem and not
    an assumption of the model. *)

From Stdlib Require Import String Ascii DecimalString.
From Stdlib Require Import List ZArith Lia Bool Arith.
Import ListNotations.

(** ** JavaScript strings *)

(** A 16-bit code unit is a [Z]; a string is the list of its code units. *)
Definition jsstring : Type := list Z.

Module JS.

(** [s.length] *)
Definition length (s : jsstring) : nat := List.length s.

(** [s.slice(0, e)] and [s.slice(b)] for [0 <= b, e]: indices past the end
    are clamped to the length, as [firstn] and [skipn] do. *)
Definition slice_to (e : nat) (s : jsstring) : jsstring := firstn e s.
Definition slice_from (b : nat) (s : jsstring) : jsstring := skipn b s.

(** Truthiness of a string: the empty string is falsy. *)
Definition truthy (s : jsstring) : bool :=
  match s with [] => false | _ :: _ => true end.

(** Truthiness of an optional string property ([undefined] is falsy). *)
Definition truthy_opt (o : option jsstring) : bool :=
  match o with Some s => truthy s | None => false end.

(** [o || ""] for an optional string property. *)
Definition or_empty (o : option jsstring) : jsstring :=
  match o with Some s => s | None => [] end.

(** Strict equality of two strings, code unit by code unit. *)
Fixpoint eqb (a b : jsstring) : bool :=
  match a, b with
  | [], [] => true
  | x :: a', y :: b' => Z.eqb x y && eqb a' b'
  | _, _ => false
  end.

(** [parts.join(sep)] *)
Fixpoint join (sep : jsstring) (parts : list jsstring) : jsstring :=
  match parts with
  | [] => []
  | [p] => p
  | p :: ps => p ++ sep ++ join sep ps
  end.

(** An ASCII literal, one code unit per character. *)
Definition lit (s : string) : jsstring :=
  map (fun a => Z.of_N (N_of_ascii a)) (list_ascii_of_string s).

(** The decimal digits of an integer, with a minus sign when negative. *)
Definition decimal (n : Z) : jsstring :=
  lit (NilZero.string_of_int (Z.to_int n)).

(** The value of the double nearest to a positive integer: 53 significant
    bits, ties to even. *)
Definition nearest_double (m : Z) : Z :=
  let e := Z.log2 m in
  if (e <=? 52)%Z then m
  else
    let sh := (e - 52)%Z in
    let q := Z.shiftr m sh in
    let r := (m - Z.shiftl q sh)%Z in
    let h := Z.shiftl 1 (sh - 1) in
    Z.shiftl (if (h <? r)%Z || ((r =? h)%Z && Z.odd q) then (q + 1)%Z else q)
      sh.

(** The number of decimal digits of a positive integer. *)
Definition digits (m : Z) : Z := Z.of_nat (List.length (decimal m)).

(** Number::toString picks the decimal with the fewest significant digits
    that reads back as the double [x]; of two with [k] digits the closer
    one, and the even one when they are as close. [k] is the number of
    significant digits tried; 17 always suffice. *)
Fixpoint shortest (fuel : nat) (k : Z) (x : Z) : Z :=
  match fuel with
  | O => x
  | S fuel' =>
      if (digits x <=? k)%Z then x
      else
        let scale := (10 ^ (digits x - k))%Z in
        let lo := (x / scale * scale)%Z in
        let hi := (lo + scale)%Z in
        let lo_ok := (nearest_double lo =? x)%Z in
        let hi_ok := (nearest_double hi =? x)%Z in
        if lo_ok && hi_ok then
          if (x - lo <? hi - x)%Z then lo
          else if (hi - x <? x - lo)%Z then hi
          else if Z.even (x / scale) then lo else hi
        else if lo_ok then lo
        else if hi_ok then hi
        else shortest fuel' (k + 1) x
  end.

(** A digit string without its trailing zeros. *)
Fixpoint strip_zeros (s : jsstring) : jsstring :=
  match s with
  | [] => []
  | c :: rest =>
      match strip_zeros rest with
      | [] => if (c =? 48)%Z then [] else [c]
      | rest' => c :: rest'
      end
  end.

(** [`${x}`] for a positive double [x] that holds an integer: all the digits
    below 10^21, and the exponent form from there on. *)
Definition of_double (x : Z) : jsstring :=
  if (2 ^ 1024 <=? x)%Z then lit "Infinity"
  else
    let m := shortest 17 1 x in
    if (m <? 10 ^ 21)%Z then decimal m
    else
      match strip_zeros (decimal m) with
      | [] => []
      | [d] => [d] ++ lit "e+" ++ decimal (digits m - 1)
      | d :: more => [d] ++ lit "." ++ more ++ lit "e+"
                     ++ decimal (digits m - 1)
      end.

(** [`${n}`] for a number that holds an integer. The integer stands for the
    double nearest to it; below 2^53 in size that is the integer itself and
    its digits are printed in full. *)
Definition of_number (n : Z) : jsstring :=
  if (Z.abs n <? 9007199254740992)%Z then decimal n
  else (if (n <? 0)%Z then lit "-" else [])
       ++ of_double (nearest_double (Z.abs n)).

End JS.

(** ** TextEncoder *)

Module TextEncoder.

Definition is_high_surrogate (u : Z) : bool :=
  (0xD800 <=? u)%Z && (u <=? 0xDBFF)%Z.
Definition is_low_surrogate (u : Z) : bool :=
  (0xDC00 <=? u)%Z && (u <=? 0xDFFF)%Z.

(** The scalar value of a surrogate pair. *)
Definition pair_code_point (hi lo : Z) : Z :=
  (0x10000 + Z.shiftl (hi - 0xD800) 10 + (lo - 0xDC00))%Z.

(** UTF-8 bytes of one scalar value. *)
Definition utf8 (c : Z) : list Z :=
  if (c <? 0x80)%Z then [c]
  else if (c <? 0x800)%Z then
    [Z.lor 0xC0 (Z.shiftr c 6); Z.lor 0x80 (Z.land c 0x3F)]
  else if (c <? 0x10000)%Z then
    [Z.lor 0xE0 (Z.shiftr c 12);
     Z.lor 0x80 (Z.land (Z.shiftr c 6) 0x3F);
     Z.lor 0x80 (Z.land c 0x3F)]
  else
    [Z.lor 0xF0 (Z.shiftr c 18);
     Z.lor 0x80 (Z.land (Z.shiftr c 12) 0x3F);
     Z.lor 0x80 (Z.land (Z.shiftr c 6) 0x3F);
     Z.lor 0x80 (Z.land c 0x3F)].

(** U+FFFD, which replaces an unpaired surrogate. *)
Definition replacement : list Z := [0xEF; 0xBF; 0xBD]%Z.

(** [encoder.encode(s)] *)
Fixpoint encode (s : jsstring) : list Z :=
  match s with
  | [] => []
  | u :: rest =>
      if is_high_surrogate u then
        match rest with
        | v :: rest' =>
            if is_low_surrogate v
            then utf8 (pair_code_point u v) ++ encode rest'
            else replacement ++ encode rest
        | [] => replacement
        end
      else if is_low_surrogate u then replacement ++ encode rest
      else utf8 u ++ encode rest
  end.

End TextEncoder.

(** [encoder.encode(s).length] *)
Definition byteLength (s : jsstring) : nat :=
  List.length (TextEncoder.encode s).

(** ** Chunk splitter *)

(** Maximum text size per request, in bytes. *)
Definition MAX_CHUNK_SIZE : nat := 3000.

(** The character class of the sentence regular expression: ideographic full
    stop, fullwidth full stop, fullwidth exclamation mark, fullwidth question
    mark and line feed. *)
Definition isSentenceEnd (u : Z) : bool :=
  (u =? 0x3002)%Z || (u =? 0xFF0E)%Z || (u =? 0xFF01)%Z || (u =? 0xFF1F)%Z
  || (u =? 0x0A)%Z.

(** [text.split(/(?<=[...])/)]: the regular expression matches the empty
    string at every position that follows a sentence end, and [split] cuts
    there, except at the end of the string; no piece is empty unless the
    string itself is. *)
Fixpoint splitSentences (text : jsstring) : list jsstring :=
  match text with
  | [] => [[]]
  | u :: rest =>
      if isSentenceEnd u && JS.truthy rest
      then [u] :: splitSentences rest
      else match splitSentences rest with
           | piece :: pieces => (u :: piece) :: pieces
           | [] => [[u]]
           end
  end.

(** The first inner loop:
    [while (encode(remaining.slice(0, end)).length > MAX && end > 1)
       end = Math.floor(end / 2);] *)
Fixpoint halveEnd (fuel : nat) (remaining : jsstring) (end_ : nat)
  : option nat :=
  match fuel with
  | O => None
  | S fuel' =>
      if (MAX_CHUNK_SIZE <? byteLength (JS.slice_to end_ remaining))
         && (1 <? end_)
      then halveEnd fuel' remaining (end_ / 2)
      else Some end_
  end.

(** The second inner loop:
    [while (end < remaining.length
            && encode(remaining.slice(0, end + 1)).length <= MAX) end++;] *)
Fixpoint extendEnd (fuel : nat) (remaining : jsstring) (end_ : nat)
  : option nat :=
  match fuel with
  | O => None
  | S fuel' =>
      if (end_ <? JS.length remaining)
         && (byteLength (JS.slice_to (end_ + 1) remaining) <=? MAX_CHUNK_SIZE)
      then extendEnd fuel' remaining (end_ + 1)
      else Some end_
  end.

(** The break point of one iteration of the character loop. *)
Definition findEnd (fuel : nat) (remaining : jsstring) : option nat :=
  match halveEnd fuel remaining (JS.length remaining) with
  | Some e => extendEnd fuel remaining e
  | None => None
  end.

(** [while (remaining) { ...; chunks.push(remaining.slice(0, end));
                         remaining = remaining.slice(end); }] *)
Fixpoint splitByCharacters (fuel : nat) (remaining : jsstring)
    (chunks : list jsstring) : option (list jsstring) :=
  match fuel with
  | O => None
  | S fuel' =>
      if JS.truthy remaining then
        match findEnd fuel remaining with
        | Some e =>
            splitByCharacters fuel' (JS.slice_from e remaining)
              (chunks ++ [JS.slice_to e remaining])
        | None => None
        end
      else Some chunks
  end.

(** [for (const sentence of sentences) { ... }], on the pair of the array
    [chunks] and the variable [currentChunk]. *)
Fixpoint forSentences (fuel : nat) (sentences : list jsstring)
    (chunks : list jsstring) (currentChunk : jsstring)
  : option (list jsstring * jsstring) :=
  match sentences with
  | [] => Some (chunks, currentChunk)
  | sentence :: rest =>
      let testChunk := currentChunk ++ sentence in
      if MAX_CHUNK_SIZE <? byteLength testChunk then
        if JS.truthy currentChunk then
          forSentences fuel rest (chunks ++ [currentChunk]) sentence
        else
          match splitByCharacters fuel sentence chunks with
          | Some chunks' => forSentences fuel rest chunks' currentChunk
          | None => None
          end
      else forSentences fuel rest chunks testChunk
  end.

(** [splitTextIntoChunks(text)]; [None] when the fuel is exhausted. *)
Definition splitTextIntoChunks (fuel : nat) (text : jsstring)
  : option (list jsstring) :=
  if byteLength text <=? MAX_CHUNK_SIZE then Some [text]
  else
    match forSentences fuel (splitSentences text) [] [] with
    | Some (chunks, currentChunk) =>
        Some (if JS.truthy currentChunk then chunks ++ [currentChunk]
              else chunks)
    | None => None
    end.

(** ** API types *)

Module SubWord.
Record t : Type := mk
  { surface : jsstring;
    furigana : option jsstring;
    roman : option jsstring }.
End SubWord.

Module Word.
Record t : Type := mk
  { surface : jsstring;
    furigana : option jsstring;
    roman : option jsstring;
    subword : option (list SubWord.t) }.
End Word.

Module FuriganaResult.
Record t : Type := mk { word : list Word.t }.
End FuriganaResult.

Module ApiError.
(** Numbers are taken to be integers. *)
Record t : Type := mk { code : Z; message : jsstring }.
End ApiError.

Module ApiResponse.
Record t : Type := mk
  { id : jsstring;
    jsonrpc : jsstring;
    result : option FuriganaResult.t;
    error : option ApiError.t }.
End ApiResponse.

Module Params.
Record t : Type := mk { q : jsstring; grade : option Z }.
End Params.

Module RequestBody.
Record t : Type := mk
  { id : jsstring;
    jsonrpc : jsstring;
    method : jsstring;
    params : Params.t }.
End RequestBody.

(** What [fetch] resolves to, with the body already parsed by [json()]. *)
Module Response.
Record t : Type := mk
  { ok : bool;
    status : Z;
    statusText : jsstring;
    json : ApiResponse.t }.
End Response.

(** ** String constants of the program *)

Module Text.
Definition open_paren : jsstring := [0xFF08]%Z.
Definition close_paren : jsstring := [0xFF09]%Z.
Definition newline : jsstring := [0x0A]%Z.
(** "API" followed by the katakana word for error *)
Definition api_error : jsstring :=
  JS.lit "API" ++ [0x30A8; 0x30E9; 0x30FC]%Z.
(** the katakana word for chunk *)
Definition chunk : jsstring := [0x30C1; 0x30E3; 0x30F3; 0x30AF]%Z.
(** "the result could not be obtained" *)
Definition no_result : jsstring :=
  [0x7D50; 0x679C; 0x304C; 0x53D6; 0x5F97; 0x3067; 0x304D; 0x307E; 0x305B;
   0x3093; 0x3067; 0x3057; 0x305F]%Z.
(** "an error occurred" *)
Definition error_occurred : jsstring :=
  [0x30A8; 0x30E9; 0x30FC; 0x304C; 0x767A; 0x751F; 0x3057; 0x307E; 0x3057;
   0x305F]%Z.
Definition ruby : jsstring := JS.lit "ruby".
Definition roman : jsstring := JS.lit "roman".
Definition bracket : jsstring := JS.lit "bracket".
End Text.

(** ** Result formatters *)

(** The guard [x.furigana && x.surface !== x.furigana]: the reading when it is
    present, non-empty and different from the surface. *)
Definition distinctFurigana (surface : jsstring) (furigana : option jsstring)
  : option jsstring :=
  match furigana with
  | Some f => if JS.truthy f && negb (JS.eqb surface f) then Some f else None
  | None => None
  end.

Definition bracketed (surface furigana : jsstring) : jsstring :=
  surface ++ Text.open_paren ++ furigana ++ Text.close_paren.

Definition rubyTag (surface furigana : jsstring) : jsstring :=
  JS.lit "<ruby>" ++ surface ++ JS.lit "<rt>" ++ furigana
  ++ JS.lit "</rt></ruby>".

(** The part pushed for one word by [formatBracket] ([annotate := bracketed])
    and by [formatRuby] ([annotate := rubyTag]); the two loops differ in the
    template only. *)
Section AnnotatedPart.
Variable annotate : jsstring -> jsstring -> jsstring.

Definition subwordPart (sw : SubWord.t) : jsstring :=
  match distinctFurigana (SubWord.surface sw) (SubWord.furigana sw) with
  | Some f => annotate (SubWord.surface sw) f
  | None => SubWord.surface sw
  end.

Definition wordPart (w : Word.t) : jsstring :=
  match distinctFurigana (Word.surface w) (Word.furigana w) with
  | Some f => annotate (Word.surface w) f
  | None =>
      match Word.subword w with
      | Some sws => JS.join [] (map subwordPart sws)
      | None => Word.surface w
      end
  end.
End AnnotatedPart.

Definition formatBracket (result : FuriganaResult.t) : jsstring :=
  JS.join [] (map (wordPart bracketed) (FuriganaResult.word result)).

Definition formatRuby (result : FuriganaResult.t) : jsstring :=
  JS.join [] (map (wordPart rubyTag) (FuriganaResult.word result)).

Definition romanDetail (surface furigana roman : jsstring) : jsstring :=
  surface ++ JS.lit ": " ++ furigana ++ JS.lit " (" ++ roman ++ JS.lit ")".

Definition romanSubword (sw : SubWord.t) : jsstring :=
  JS.lit "  - "
  ++ romanDetail (SubWord.surface sw) (JS.or_empty (SubWord.furigana sw))
       (JS.or_empty (SubWord.roman sw)).

(** The line pushed for one word by [formatWithRoman]. *)
Definition romanLine (w : Word.t) : jsstring :=
  let surface := Word.surface w in
  let furigana := JS.or_empty (Word.furigana w) in
  let roman := JS.or_empty (Word.roman w) in
  match Word.subword w with
  | Some sws =>
      surface ++ JS.lit ":" ++ Text.newline
      ++ JS.join Text.newline (map romanSubword sws)
  | None =>
      if JS.truthy furigana || JS.truthy roman
      then romanDetail surface furigana roman
      else surface
  end.

Definition formatWithRoman (result : FuriganaResult.t) : jsstring :=
  JS.join Text.newline (map romanLine (FuriganaResult.word result)).

(** [formatResult(result, format)]: a [switch] on the string [format], whose
    [default] shares the branch of ["bracket"]. *)
Definition formatResult (result : FuriganaResult.t) (format : jsstring)
  : jsstring :=
  if JS.eqb format Text.ruby then formatRuby result
  else if JS.eqb format Text.roman then formatWithRoman result
  else formatBracket result.

(** ** Remote calls *)

(** The remote service answers a request knowing the requests that came
    before it. *)
Definition Remote : Type := list RequestBody.t -> RequestBody.t -> Response.t.

(** How an asynchronous function completes. *)
Inductive completion (A : Type) : Type :=
| Normal (a : A)
| Throw (message : jsstring)
| OutOfFuel.
Arguments Normal {A} a.
Arguments Throw {A} message.
Arguments OutOfFuel {A}.

(** A computation threads the log of the requests sent so far. *)
Definition M (A : Type) : Type :=
  list RequestBody.t -> completion A * list RequestBody.t.

Definition ret {A} (a : A) : M A := fun log => (Normal a, log).
Definition throw {A} (message : jsstring) : M A :=
  fun log => (Throw message, log).
Definition bind {A B} (m : M A) (k : A -> M B) : M B :=
  fun log =>
    match m log with
    | (Normal a, log') => k a log'
    | (Throw message, log') => (Throw message, log')
    | (OutOfFuel, log') => (OutOfFuel, log')
    end.

Notation "x <- m ;; k" := (bind m (fun x => k))
  (at level 61, m at next level, right associativity).

(** [grade !== undefined && grade >= 1 && grade <= 8] *)
Definition gradeInRange (grade : option Z) : bool :=
  match grade with
  | Some g => (1 <=? g)%Z && (g <=? 8)%Z
  | None => false
  end.

(** The request body that [getFurigana] builds. *)
Definition requestBody (text : jsstring) (grade : option Z) : RequestBody.t :=
  RequestBody.mk (JS.lit "1") (JS.lit "2.0")
    (JS.lit "jlp.furiganaservice.furigana")
    (Params.mk text (if gradeInRange grade then grade else None)).

Definition getFurigana (remote : Remote) (text : jsstring) (grade : option Z)
  : M ApiResponse.t :=
  fun log =>
    let body := requestBody text grade in
    let response := remote log body in
    let log' := log ++ [body] in
    if negb (Response.ok response) then
      (Throw (JS.lit "HTTP error: " ++ JS.of_number (Response.status response)
              ++ JS.lit " " ++ Response.statusText response), log')
    else (Normal (Response.json response), log').

(** ** Chunk orchestrator *)

Definition chunkTag (i n : nat) : jsstring :=
  Text.chunk ++ JS.lit " " ++ JS.of_number (Z.of_nat i) ++ JS.lit "/"
  ++ JS.of_number (Z.of_nat n).

(** [for (let i = 0; i < chunks.length; i++) { ... }]: [rest] holds
    [chunks[i]], [chunks[i+1]], ... and [n] is [chunks.length]. *)
Fixpoint forChunks (remote : Remote) (grade : option Z) (format : jsstring)
    (n : nat) (rest : list jsstring) (i : nat) (results : list jsstring)
  : M (list jsstring) :=
  match rest with
  | [] => ret results
  | chunk :: rest' =>
      response <- getFurigana remote chunk grade ;;
      match ApiResponse.error response with
      | Some e =>
          throw (Text.api_error ++ JS.lit " (" ++ chunkTag (i + 1) n
                 ++ JS.lit "): " ++ ApiError.message e)
      | None =>
          match ApiResponse.result response with
          | None =>
              throw (Text.no_result ++ JS.lit " (" ++ chunkTag (i + 1) n
                     ++ JS.lit ")")
          | Some r =>
              forChunks remote grade format n rest' (i + 1)
                (results ++ [formatResult r format])
          end
      end
  end.

Definition processTextWithChunking (fuel : nat) (remote : Remote)
    (text : jsstring) (grade : option Z) (format : jsstring) : M jsstring :=
  match splitTextIntoChunks fuel text with
  | None => fun log => (OutOfFuel, log)
  | Some chunks =>
      if List.length chunks =? 1 then
        response <- getFurigana remote text grade ;;
        match ApiResponse.error response with
        | Some e =>
            throw (Text.api_error ++ JS.lit ": " ++ ApiError.message e
                   ++ JS.lit " (code: " ++ JS.of_number (ApiError.code e)
                   ++ JS.lit ")")
        | None =>
            match ApiResponse.result response with
            | None => throw Text.no_result
            | Some r => ret (formatResult r format)
            end
        end
      else
        results <- forChunks remote grade format (List.length chunks) chunks
                     0 [] ;;
        ret (if JS.eqb format Text.roman then JS.join Text.newline results
             else JS.join [] results)
  end.

(** ** Tool entry point *)

Module ToolArgs.
Record t : Type := mk
  { text : jsstring;
    grade : option Z;
    output_format : option jsstring }.
End ToolArgs.

Module ToolResult.
(** [{ content: [{ type: "text", text }], isError }] *)
Record t : Type := mk { text : jsstring; isError : bool }.
End ToolResult.

(** The handler registered for [gen_furigana]. *)
Definition gen_furigana (fuel : nat) (remote : Remote) (args : ToolArgs.t)
  : M ToolResult.t :=
  fun log =>
    let format :=
      match ToolArgs.output_format args with
      | Some f => if JS.truthy f then f else Text.ruby
      | None => Text.ruby
      end in
    match processTextWithChunking fuel remote (ToolArgs.text args)
            (ToolArgs.grade args) format log with
    | (Normal formatted, log') =>
        (Normal (ToolResult.mk formatted false), log')
    | (Throw message, log') =>
        (Normal (ToolResult.mk
                   (Text.error_occurred ++ JS.lit ": " ++ message) true),
         log')
    | (OutOfFuel, log') => (OutOfFuel, log')
    end.

(** The schema of the tool: [grade] is [z.number().min(1).max(8).optional()]
    and [output_format] is [z.enum(["bracket","ruby","roman"]).optional()]. *)
Definition gradeSchema (grade : option Z) : bool :=
  match grade with
  | Some g => (1 <=? g)%Z && (g <=? 8)%Z
  | None => true
  end.

Definition outputFormatSchema (output_format : option jsstring) : bool :=
  match output_format with
  | Some f =>
      JS.eqb f Text.bracket || JS.eqb f Text.ruby || JS.eqb f Text.roman
  | None => true
  end.

Definition schema (args : ToolArgs.t) : bool :=
  gradeSchema (ToolArgs.grade args)
  && outputFormatSchema (ToolArgs.output_format args).

(** A tool call either fails validation or is handled. *)
Inductive callOutcome : Type :=
| InvalidParams
| Handled (r : ToolResult.t).

(** [server.tool("gen_furigana", ..., schema, handler)]: the server runs the
    handler on the arguments that pass the schema and rejects the others
    without running it. *)
Definition callTool (fuel : nat) (remote : Remote) (args : ToolArgs.t)
  : M callOutcome :=
  if schema args
  then r <- gen_furigana fuel remote args ;; ret (Handled r)
  else ret InvalidParams.

(** ** Predicates on chunks *)

Definition nonEmpty (c : jsstring) : Prop := c <> [].

(** The chunk fits in one request. *)
Definition fits (c : jsstring) : Prop := byteLength c <= MAX_CHUNK_SIZE.

(** No code unit of the string is a high surrogate: the string holds no
    surrogate pair. *)
Definition noHighSurrogate (s : jsstring) : Prop :=
  Forall (fun u => TextEncoder.is_high_surrogate u = false) s.

(** ** Sample inputs *)

Module Sample.

(** "a" and an ideographic full stop, then 3001 times "b": 3005 bytes. *)
Definition carried_sentence : jsstring :=
  [0x61; 0x3002]%Z ++ repeat 0x62%Z 3001.

(** "a", then 750 times U+1F600 (a surrogate pair, 4 bytes), then 1499
    times "b": one sentence unit of 3000 code units and 4500 bytes. *)
Definition astral_sentence : jsstring :=
  [0x61]%Z ++ concat (repeat [0xD83D; 0xDE00]%Z 750) ++ repeat 0x62%Z 1499.

(** 600 hiragana, a full stop, 600 hiragana: two sentences, 3603 bytes. *)
Definition two_sentences : jsstring :=
  repeat 0x3042%Z 600 ++ [0x3002]%Z ++ repeat 0x3044%Z 600.

(** Two kanji, 6 bytes. *)
Definition short_text : jsstring := [0x6F22; 0x5B57]%Z.

Definition hiragana_no : jsstring := [0x306E]%Z.

(** A kana-only word: the reading repeats the surface. *)
Definition kana_word : Word.t :=
  Word.mk hiragana_no (Some hiragana_no) None None.

(** A word whose reading repeats the surface and that has subwords. *)
Definition kana_word_with_subwords : Word.t :=
  Word.mk [0x4ECA; 0x65E5]%Z (Some [0x4ECA; 0x65E5]%Z) None
    (Some [SubWord.mk [0x4ECA]%Z (Some [0x304D; 0x3087]%Z) None;
           SubWord.mk [0x65E5]%Z (Some [0x3046]%Z) None]).

Definition kanji_word : Word.t :=
  Word.mk [0x6F22; 0x5B57]%Z (Some [0x304B; 0x3093; 0x3058]%Z) None None.

(** The text of the second usage example and the words of its reading. *)
Definition reading_text : jsstring :=
  [0x6F22; 0x5B57; 0x306E; 0x8AAD; 0x307F; 0x65B9]%Z.

Definition reading_words : list Word.t :=
  [kanji_word;
   kana_word;
   Word.mk [0x8AAD]%Z (Some [0x3088]%Z) None None;
   Word.mk [0x307F]%Z (Some [0x307F]%Z) None None;
   Word.mk [0x65B9]%Z (Some [0x304B; 0x305F]%Z) None None].

Definition success (r : FuriganaResult.t) : Response.t :=
  Response.mk true 200 (JS.lit "OK")
    (ApiResponse.mk (JS.lit "1") (JS.lit "2.0") (Some r) None).

(** A service that knows the reading of the example. *)
Definition reading_service : Remote :=
  fun _ _ => success (FuriganaResult.mk reading_words).

(** A service that returns each fragment as one word without a reading. *)
Definition echo (body : RequestBody.t) : Response.t :=
  success (FuriganaResult.mk
             [Word.mk (Params.q (RequestBody.params body)) None None None]).

Definition echo_service : Remote := fun _ body => echo body.

(** The second request meets HTTP status 503. *)
Definition second_unavailable : Remote :=
  fun log body =>
    if List.length log =? 1
    then Response.mk false 503 (JS.lit "Service Unavailable")
           (ApiResponse.mk [] [] None None)
    else echo body.

(** The second request is answered by the error object
    [{ code: 1, message: "x" }]. *)
Definition second_service_error : Remote :=
  fun log body =>
    if List.length log =? 1
    then Response.mk true 200 (JS.lit "OK")
           (ApiResponse.mk (JS.lit "1") (JS.lit "2.0") None
              (Some (ApiError.mk 1 (JS.lit "x"))))
    else echo body.

(** Three sentences of 1803, 1803 and 1800 bytes: three chunks. *)
Definition three_sentences : jsstring :=
  repeat 0x3042%Z 600 ++ [0x3002]%Z ++ repeat 0x3044%Z 600 ++ [0x3002]%Z
  ++ repeat 0x3046%Z 600.
Definition sentence1 : jsstring := repeat 0x3042%Z 600 ++ [0x3002]%Z.
Definition sentence2 : jsstring := repeat 0x3044%Z 600 ++ [0x3002]%Z.
End Sample.

(** ** The first version of the server (src/index.ts) *)

(** The server before chunking: one request for the whole text, the bracket
    style or, with [include_roman], the roman style. [getFurigana] and
    [formatWithRoman] are the functions above. *)
Module V1.

(** [formatResult(result)]: the loop that later became [formatBracket]. *)
Definition formatResult (result : FuriganaResult.t) : jsstring :=
  JS.join [] (map (wordPart bracketed) (FuriganaResult.word result)).

Record ToolArgs : Type := mkArgs
  { text : jsstring;
    grade : option Z;
    include_roman : option bool }.

(** Truthiness of the optional flag [include_roman]. *)
Definition flag (o : option bool) : bool :=
  match o with Some b => b | None => false end.

(** The handler registered for [gen_furigana]: the [try] block, whose only
    throwing call is [getFurigana], and the [catch] block. *)
Definition gen_furigana (remote : Remote) (args : ToolArgs)
  : M ToolResult.t :=
  fun log =>
    match getFurigana remote (text args) (grade args) log with
    | (Normal response, log') =>
        match ApiResponse.error response with
        | Some e =>
            (Normal (ToolResult.mk
                       (Text.api_error ++ JS.lit ": " ++ ApiError.message e
                        ++ JS.lit " (code: " ++ JS.of_number (ApiError.code e)
                        ++ JS.lit ")") true), log')
        | None =>
            match ApiResponse.result response with
            | None => (Normal (ToolResult.mk Text.no_result true), log')
            | Some r =>
                (Normal (ToolResult.mk
                           (if flag (include_roman args)
                            then formatWithRoman r else formatResult r)
                           false), log')
            end
        end
    | (Throw message, log') =>
        (Normal (ToolResult.mk
                   (Text.error_occurred ++ JS.lit ": " ++ message) true),
         log')
    | (OutOfFuel, log') => (OutOfFuel, log')
    end.

(** The [output_format] of the later handler that stands for a value of
    [include_roman]. *)
Definition format_of (include_roman : option bool) : jsstring :=
  if flag include_roman then Text.roman else Text.bracket.

End V1.

(** ** Further predicates *)

(** A UTF-16 code unit. *)
Definition codeUnit (u : Z) : Prop := (0 <= u < 0x10000)%Z.

(** The separator that [processTextWithChunking] joins the chunk outputs
    with. *)
Definition chunkSeparator (format : jsstring) : jsstring :=
  if JS.eqb format Text.roman then Text.newline else [].

(** A service that answers every request with the words [annotate q] of its
    text, whatever came before. *)
Definition answersWith (remote : Remote)
    (annotate : jsstring -> FuriganaResult.t) : Prop :=
  forall log body,
    Response.ok (remote log body) = true
    /\ ApiResponse.error (Response.json (remote log body)) = None
    /\ ApiResponse.result (Response.json (remote log body))
       = Some (annotate (Params.q (RequestBody.params body))).




(** The format the handler works with: [output_format || "ruby"]. *)
Definition formatOrRuby (output_format : option jsstring) : jsstring :=
  match output_format with
  | Some (u :: f) => u :: f
  | _ => Text.ruby
  end.


(** The words of a concatenation are the words of its parts. *)
Definition compositional (annotate : jsstring -> FuriganaResult.t) : Prop :=
  forall a b,
    FuriganaResult.word (annotate (a ++ b))
    = FuriganaResult.word (annotate a) ++ FuriganaResult.word (annotate b).

(** Each piece is the longest prefix that fits of what remained before it:
    every longer prefix of the remainder is over the limit. *)
Fixpoint longestPrefixes (remaining : jsstring) (pieces : list jsstring)
  : Prop :=
  match pieces with
  | [] => True
  | c :: rest =>
      (forall e, List.length c < e -> e <= List.length remaining ->
                 MAX_CHUNK_SIZE < byteLength (JS.slice_to e remaining))
      /\ longestPrefixes (JS.slice_from (List.length c) remaining) rest
  end.

(** ** Further sample inputs *)

Module Scenario.

(** One word per code unit, without a reading. *)
Definition spell (q : jsstring) : FuriganaResult.t :=
  FuriganaResult.mk (map (fun u => Word.mk [u] None None None) q).

Definition spelling_service : Remote := fun _ body =>
  Sample.success (spell (Params.q (RequestBody.params body))).


(** 1001 times U+3042 (3003 bytes): one sentence unit, over the limit. *)
Definition long_kana : jsstring := repeat 0x3042%Z 1001.


End Scenario.

(** ** Proof steps *)

(** Splits a conjunction of small facts and closes each of them. *)
Ltac close_cases :=
  repeat split; try (intros; (lia || congruence || reflexivity || auto)).

(** * Properties *)

(** ** The built-ins on small inputs *)

(** U+00E9 takes two bytes, U+3042 three, the pair for U+1F600 four, and a
    lone surrogate becomes U+FFFD. *)
Example encode_samples :
  TextEncoder.encode [0xE9; 0x3042; 0xD83D; 0xDE00; 0xD83D]%Z
  = [0xC3; 0xA9; 0xE3; 0x81; 0x82; 0xF0; 0x9F; 0x98; 0x80; 0xEF; 0xBF; 0xBD]%Z.
Proof. reflexivity. Qed.

(** [split] cuts after every sentence end and gives no empty piece, not even
    after a sentence end that closes the text. *)
Example splitSentences_samples :
  splitSentences [0x61; 0x3002; 0x3002; 0x62; 0x0A]%Z
  = [[0x61; 0x3002]; [0x3002]; [0x62; 0x0A]]%Z
  /\ splitSentences [0x61; 0x62]%Z = [[0x61; 0x62]]%Z
  /\ splitSentences [] = [[]].
Proof. repeat split; reflexivity. Qed.

(** Numbers in template literals. *)
Example of_number_samples :
  JS.of_number 503 = JS.lit "503" /\ JS.of_number 0 = JS.lit "0"
  /\ JS.of_number (-32600) = JS.lit "-32600".
Proof. repeat split; reflexivity. Qed.

(** Numbers of 2^53 and more in template literals: the shortest digits of
    the nearest double, and the exponent form from 10^21 on. *)
Example of_number_large_samples :
  JS.of_number (10 ^ 21) = JS.lit "1e+21"
  /\ JS.of_number (- 10 ^ 21) = JS.lit "-1e+21"
  /\ JS.of_number (15 * 10 ^ 20) = JS.lit "1.5e+21"
  /\ JS.of_number (10 ^ 23) = JS.lit "1e+23"
  /\ JS.of_number (2 ^ 60) = JS.lit "1152921504606847000"
  /\ JS.of_number 123456789012345678901 = JS.lit "123456789012345680000"
  /\ JS.of_number 9007199254740993 = JS.lit "9007199254740992"
  /\ JS.of_number 9007199254740994 = JS.lit "9007199254740994"
  /\ JS.of_number (10 ^ 20) = JS.lit "100000000000000000000"
  /\ JS.of_number (2 ^ 1024) = JS.lit "Infinity".
Proof. repeat split; vm_compute; reflexivity. Qed.


(** ** Strings and the encoder *)

Lemma truthy_true (s : jsstring) : JS.truthy s = true <-> s <> [].
Proof. destruct s; simpl; split; congruence. Qed.

Lemma truthy_false (s : jsstring) : JS.truthy s = false <-> s = [].
Proof. destruct s; simpl; split; congruence. Qed.

Lemma eqb_eq (a b : jsstring) : JS.eqb a b = true <-> a = b.
Proof.
  revert b; induction a as [|x a IH]; intros [|y b]; simpl;
    try (split; congruence).
  rewrite andb_true_iff, Z.eqb_eq, IH. split.
  - intros [-> ->]; reflexivity.
  - intros E; injection E; auto.
Qed.

Lemma eqb_refl (a : jsstring) : JS.eqb a a = true.
Proof. apply eqb_eq; reflexivity. Qed.

Lemma utf8_length (c : Z) : 1 <= List.length (TextEncoder.utf8 c) <= 4.
Proof.
  unfold TextEncoder.utf8.
  destruct (c <? 0x80)%Z; [simpl; lia|].
  destruct (c <? 0x800)%Z; [simpl; lia|].
  destruct (c <? 0x10000)%Z; simpl; lia.
Qed.

(** One code unit never takes more than four bytes. *)
Lemma byteLength_unit (u : Z) : byteLength [u] <= 4.
Proof.
  unfold byteLength; cbn [TextEncoder.encode].
  destruct (TextEncoder.is_high_surrogate u); [simpl; lia|].
  destruct (TextEncoder.is_low_surrogate u).
  - simpl; lia.
  - rewrite app_nil_r. apply utf8_length.
Qed.

Lemma MAX_CHUNK_SIZE_ge : 4 <= MAX_CHUNK_SIZE.
Proof. apply Nat.leb_le. reflexivity. Qed.

(** ** Sentence units *)

Lemma concat_splitSentences (text : jsstring) :
  concat (splitSentences text) = text.
Proof.
  induction text as [|u rest IH]; [reflexivity|].
  cbn [splitSentences].
  destruct (isSentenceEnd u && JS.truthy rest).
  - cbn [concat app]. now rewrite IH.
  - destruct (splitSentences rest) as [|piece pieces].
    + simpl in IH. subst rest. reflexivity.
    + cbn [concat] in *. now rewrite <- IH.
Qed.

Lemma length_in_concat (A : Type) (l : list (list A)) (x : list A) :
  In x l -> List.length x <= List.length (concat l).
Proof.
  induction l as [|y l IH]; intros H; [contradiction|].
  cbn [concat]. rewrite length_app.
  destruct H as [->|H]; [lia|]. apply IH in H. lia.
Qed.

Lemma sentence_length (text sentence : jsstring) :
  In sentence (splitSentences text) ->
  List.length sentence <= List.length text.
Proof.
  intros H. apply length_in_concat in H.
  now rewrite concat_splitSentences in H.
Qed.

(** ** The two inner loops *)

Section InnerLoops.
Variable remaining : jsstring.

Lemma halveEnd_some : forall fuel e,
  e < fuel -> exists e', halveEnd fuel remaining e = Some e'.
Proof.
  induction fuel as [|fuel IH]; intros e He; [lia|].
  cbn [halveEnd].
  destruct ((MAX_CHUNK_SIZE <? _) && (1 <? e)) eqn:C; [|eauto].
  apply IH. apply andb_true_iff in C as [_ C]. apply Nat.ltb_lt in C.
  assert (e / 2 < e) by (apply Nat.div_lt; lia). lia.
Qed.

Lemma halveEnd_le : forall fuel e e',
  halveEnd fuel remaining e = Some e' -> e' <= e.
Proof.
  induction fuel as [|fuel IH]; intros e e' H; [discriminate|].
  cbn [halveEnd] in H.
  destruct ((MAX_CHUNK_SIZE <? _) && (1 <? e)) eqn:C.
  - apply andb_true_iff in C as [_ C]. apply Nat.ltb_lt in C.
    apply IH in H.
    assert (e / 2 < e) by (apply Nat.div_lt; lia). lia.
  - injection H as <-. lia.
Qed.

Lemma halveEnd_range : forall fuel e e',
  halveEnd fuel remaining e = Some e' -> 1 <= e -> 1 <= e' <= e.
Proof.
  induction fuel as [|fuel IH]; intros e e' H He; [discriminate|].
  cbn [halveEnd] in H.
  destruct ((MAX_CHUNK_SIZE <? _) && (1 <? e)) eqn:C.
  - apply andb_true_iff in C as [_ C]. apply Nat.ltb_lt in C.
    apply IH in H.
    + assert (e / 2 < e) by (apply Nat.div_lt; lia). lia.
    + apply Nat.div_str_pos. lia.
  - injection H as <-. lia.
Qed.

Lemma halveEnd_fits : forall fuel e e',
  halveEnd fuel remaining e = Some e' ->
  byteLength (JS.slice_to e' remaining) <= MAX_CHUNK_SIZE \/ e' <= 1.
Proof.
  induction fuel as [|fuel IH]; intros e e' H; [discriminate|].
  cbn [halveEnd] in H.
  destruct ((MAX_CHUNK_SIZE <? _) && (1 <? e)) eqn:C.
  - eapply IH; eassumption.
  - injection H as <-. apply andb_false_iff in C as [C|C].
    + apply Nat.ltb_ge in C. now left.
    + apply Nat.ltb_ge in C. now right.
Qed.

Lemma extendEnd_some : forall fuel e,
  List.length remaining - e < fuel ->
  exists e', extendEnd fuel remaining e = Some e'.
Proof.
  induction fuel as [|fuel IH]; intros e He; [lia|].
  cbn [extendEnd].
  destruct ((e <? JS.length remaining) && _) eqn:C; [|eauto].
  apply IH. apply andb_true_iff in C as [C _]. apply Nat.ltb_lt in C.
  unfold JS.length in C. lia.
Qed.

Lemma extendEnd_range : forall fuel e e',
  extendEnd fuel remaining e = Some e' ->
  e <= e' /\ (e <= List.length remaining -> e' <= List.length remaining).
Proof.
  induction fuel as [|fuel IH]; intros e e' H; [discriminate|].
  cbn [extendEnd] in H.
  destruct ((e <? JS.length remaining) && _) eqn:C.
  - apply andb_true_iff in C as [C _]. apply Nat.ltb_lt in C.
    unfold JS.length in C. apply IH in H. lia.
  - injection H as <-. lia.
Qed.

Lemma extendEnd_fits : forall fuel e e',
  extendEnd fuel remaining e = Some e' ->
  byteLength (JS.slice_to e remaining) <= MAX_CHUNK_SIZE ->
  byteLength (JS.slice_to e' remaining) <= MAX_CHUNK_SIZE.
Proof.
  induction fuel as [|fuel IH]; intros e e' H Hfit; [discriminate|].
  cbn [extendEnd] in H.
  destruct ((e <? JS.length remaining) && _) eqn:C.
  - apply andb_true_iff in C as [_ C]. apply Nat.leb_le in C.
    eapply IH; eassumption.
  - now injection H as <-.
Qed.

(** The break point exists, is at least 1 and at most the length, and the
    prefix it cuts fits in a request. *)
Lemma findEnd_some (fuel : nat) :
  remaining <> [] -> List.length remaining < fuel ->
  exists e, findEnd fuel remaining = Some e.
Proof.
  intros Hne Hfuel. unfold findEnd.
  destruct (halveEnd_some _ _ Hfuel) as [e0 H0].
  unfold JS.length. rewrite H0.
  apply extendEnd_some. lia.
Qed.

Lemma findEnd_range (fuel e : nat) :
  findEnd fuel remaining = Some e -> remaining <> [] ->
  1 <= e <= List.length remaining.
Proof.
  unfold findEnd, JS.length. intros H Hne.
  destruct (halveEnd fuel remaining (List.length remaining)) as [e0|] eqn:H0;
    [|discriminate].
  apply halveEnd_range in H0.
  - apply extendEnd_range in H. lia.
  - destruct remaining; [congruence|simpl; lia].
Qed.

Lemma findEnd_fits (fuel e : nat) :
  findEnd fuel remaining = Some e -> remaining <> [] ->
  byteLength (JS.slice_to e remaining) <= MAX_CHUNK_SIZE.
Proof.
  unfold findEnd, JS.length. intros H Hne.
  destruct (halveEnd fuel remaining (List.length remaining)) as [e0|] eqn:H0;
    [|discriminate].
  eapply extendEnd_fits; [eassumption|].
  pose proof (halveEnd_range _ _ _ H0) as Hr.
  pose proof H0 as Hf. apply halveEnd_fits in Hf.
  destruct Hf as [Hfit|Hone]; [assumption|].
  destruct remaining as [|u rest]; [congruence|].
  assert (e0 = 1) as -> by (simpl in Hr; lia).
  unfold JS.slice_to. cbn [firstn].
  pose proof (byteLength_unit u). pose proof MAX_CHUNK_SIZE_ge. lia.
Qed.
End InnerLoops.

(** ** The character loop *)

Lemma slice_to_nonEmpty (e : nat) (s : jsstring) :
  1 <= e -> s <> [] -> nonEmpty (JS.slice_to e s).
Proof.
  unfold nonEmpty, JS.slice_to. destruct e; [lia|].
  destruct s; [congruence|]. simpl. congruence.
Qed.

Lemma slice_from_shorter (e : nat) (s : jsstring) :
  1 <= e -> s <> [] ->
  List.length (JS.slice_from e s) < List.length s.
Proof.
  unfold JS.slice_from. intros He Hs. rewrite length_skipn.
  destruct s; [congruence|]. cbn [List.length]. lia.
Qed.

Lemma splitByCharacters_some : forall fuel remaining chunks,
  List.length remaining < fuel ->
  exists chunks', splitByCharacters fuel remaining chunks = Some chunks'.
Proof.
  induction fuel as [|fuel IH]; intros remaining chunks Hfuel; [lia|].
  cbn [splitByCharacters].
  destruct (JS.truthy remaining) eqn:T; [|eauto].
  apply truthy_true in T.
  destruct (findEnd_some _ _ T Hfuel) as [e He]. rewrite He.
  apply IH. pose proof (findEnd_range _ _ _ He T) as Hr.
  pose proof (slice_from_shorter e remaining (proj1 Hr) T). lia.
Qed.

Lemma splitByCharacters_concat : forall fuel remaining chunks chunks',
  splitByCharacters fuel remaining chunks = Some chunks' ->
  concat chunks' = concat chunks ++ remaining.
Proof.
  induction fuel as [|fuel IH]; intros remaining chunks chunks' H;
    [discriminate|].
  cbn [splitByCharacters] in H.
  destruct (JS.truthy remaining) eqn:T.
  - destruct (findEnd (S fuel) remaining) as [e|]; [|discriminate].
    apply IH in H. rewrite H, concat_app. cbn [concat].
    rewrite app_nil_r, <- app_assoc. f_equal. apply firstn_skipn.
  - apply truthy_false in T. subst. injection H as <-.
    now rewrite app_nil_r.
Qed.

(** Every piece pushed by the character loop satisfies [P] when the earlier
    chunks do and [P] holds of every non-empty prefix that fits. *)
Lemma splitByCharacters_Forall (P : jsstring -> Prop) :
  (forall c, nonEmpty c -> fits c -> P c) ->
  forall fuel remaining chunks chunks',
    splitByCharacters fuel remaining chunks = Some chunks' ->
    Forall P chunks -> Forall P chunks'.
Proof.
  intros HP.
  induction fuel as [|fuel IH]; intros remaining chunks chunks' H Hall;
    [discriminate|].
  cbn [splitByCharacters] in H.
  destruct (JS.truthy remaining) eqn:T.
  - apply truthy_true in T.
    destruct (findEnd (S fuel) remaining) as [e|] eqn:He; [|discriminate].
    eapply IH; [eassumption|].
    apply Forall_app. split; [assumption|].
    constructor; [|constructor]. apply HP.
    + apply slice_to_nonEmpty; [|assumption].
      apply (findEnd_range _ _ _ He T).
    + apply (findEnd_fits _ _ _ He T).
  - now injection H as <-.
Qed.

(** ** The sentence loop *)

Lemma forSentences_some (fuel : nat) : forall sentences chunks currentChunk,
  (forall s, In s sentences -> List.length s < fuel) ->
  exists r, forSentences fuel sentences chunks currentChunk = Some r.
Proof.
  induction sentences as [|sentence rest IH]; intros chunks cur Hlen;
    cbn [forSentences]; [eauto|].
  assert (Hrest : forall s, In s rest -> List.length s < fuel)
    by (intros s Hs; apply Hlen; now right).
  destruct (MAX_CHUNK_SIZE <? byteLength (cur ++ sentence)); [|now apply IH].
  destruct (JS.truthy cur); [now apply IH|].
  destruct (splitByCharacters_some fuel sentence chunks) as [chunks' ->].
  - apply Hlen. now left.
  - now apply IH.
Qed.

Lemma forSentences_concat (fuel : nat) :
  forall sentences chunks currentChunk chunks' currentChunk',
    forSentences fuel sentences chunks currentChunk
    = Some (chunks', currentChunk') ->
    concat chunks' ++ currentChunk'
    = concat chunks ++ currentChunk ++ concat sentences.
Proof.
  induction sentences as [|sentence rest IH]; intros chunks cur chunks' cur' H;
    cbn [forSentences] in H.
  - injection H as <- <-. cbn [concat]. now rewrite app_nil_r.
  - cbn [concat].
    destruct (MAX_CHUNK_SIZE <? byteLength (cur ++ sentence)).
    + destruct (JS.truthy cur) eqn:T.
      * apply IH in H. rewrite H, concat_app. cbn [concat].
        now rewrite app_nil_r, <- app_assoc.
      * apply truthy_false in T. subst cur.
        destruct (splitByCharacters fuel sentence chunks) as [chunks1|] eqn:B;
          [|discriminate].
        apply IH in H. apply splitByCharacters_concat in B.
        rewrite H, B. cbn [app]. now rewrite <- app_assoc.
    + apply IH in H. rewrite H. now rewrite <- app_assoc.
Qed.

(** The chunks pushed by the sentence loop satisfy [P] when [P] holds of
    every non-empty string that fits and of every non-empty sentence. *)
Lemma forSentences_Forall (P : jsstring -> Prop) (fuel : nat) :
  (forall c, nonEmpty c -> fits c -> P c) ->
  forall sentences chunks currentChunk chunks' currentChunk',
    (forall s, In s sentences -> nonEmpty s -> P s) ->
    forSentences fuel sentences chunks currentChunk
    = Some (chunks', currentChunk') ->
    Forall P chunks -> (nonEmpty currentChunk -> P currentChunk) ->
    Forall P chunks' /\ (nonEmpty currentChunk' -> P currentChunk').
Proof.
  intros HP.
  induction sentences as [|sentence rest IH];
    intros chunks cur chunks' cur' Hs H Hall Hcur; cbn [forSentences] in H.
  - injection H as <- <-. now split.
  - assert (Hrest : forall s, In s rest -> nonEmpty s -> P s)
      by (intros s Hin; apply Hs; now right).
    destruct (MAX_CHUNK_SIZE <? byteLength (cur ++ sentence)) eqn:C.
    + destruct (JS.truthy cur) eqn:T.
      * apply truthy_true in T.
        eapply IH; [exact Hrest|exact H| |].
        -- apply Forall_app. split; [assumption|]. repeat constructor.
           now apply Hcur.
        -- apply Hs. now left.
      * destruct (splitByCharacters fuel sentence chunks) as [chunks1|] eqn:B;
          [|discriminate].
        eapply IH; [exact Hrest|exact H| |exact Hcur].
        eapply splitByCharacters_Forall; eassumption.
    + apply Nat.ltb_ge in C.
      eapply IH; [exact Hrest|exact H|assumption|].
      intros Hne. now apply HP.
Qed.

(** ** The splitter *)

Lemma splitTextIntoChunks_some (fuel : nat) (text : jsstring) :
  List.length text < fuel ->
  exists chunks, splitTextIntoChunks fuel text = Some chunks.
Proof.
  intros Hfuel. unfold splitTextIntoChunks.
  destruct (byteLength text <=? MAX_CHUNK_SIZE); [eauto|].
  destruct (forSentences_some fuel (splitSentences text) [] [])
    as [[chunks cur] ->]; [|eauto].
  intros s Hs. apply sentence_length in Hs. lia.
Qed.

Lemma splitTextIntoChunks_concat (fuel : nat) (text : jsstring) chunks :
  splitTextIntoChunks fuel text = Some chunks -> concat chunks = text.
Proof.
  unfold splitTextIntoChunks.
  destruct (byteLength text <=? MAX_CHUNK_SIZE).
  - intros H; injection H as <-. cbn [concat]. apply app_nil_r.
  - destruct (forSentences fuel (splitSentences text) [] [])
      as [[chunks0 cur]|] eqn:F; [|discriminate].
    intros H; injection H as <-.
    apply forSentences_concat in F. cbn [concat app] in F.
    rewrite concat_splitSentences in F. rewrite <- F.
    destruct (JS.truthy cur) eqn:T.
    + rewrite concat_app. cbn [concat]. now rewrite app_nil_r.
    + apply truthy_false in T. subst cur. now rewrite app_nil_r.
Qed.

Lemma splitTextIntoChunks_Forall (P : jsstring -> Prop) (fuel : nat)
    (text : jsstring) chunks :
  (forall c, nonEmpty c -> fits c -> P c) ->
  (forall s, In s (splitSentences text) -> nonEmpty s -> P s) ->
  nonEmpty text ->
  splitTextIntoChunks fuel text = Some chunks -> Forall P chunks.
Proof.
  intros HP Hs Hne. unfold splitTextIntoChunks.
  destruct (byteLength text <=? MAX_CHUNK_SIZE) eqn:C.
  - intros H; injection H as <-. apply Nat.leb_le in C.
    repeat constructor. now apply HP.
  - destruct (forSentences fuel (splitSentences text) [] [])
      as [[chunks0 cur]|] eqn:F; [|discriminate].
    intros H; injection H as <-.
    eapply forSentences_Forall in F; [|exact HP|exact Hs|constructor|].
    + destruct F as [Hall Hcur].
      destruct (JS.truthy cur) eqn:T; [|assumption].
      apply truthy_true in T. apply Forall_app. split; [assumption|].
      repeat constructor. now apply Hcur.
    + intros E. now elim E.
Qed.

(** Every chunk fits in a request, or is a whole sentence unit of the text
    that was carried over into the buffer. *)
Lemma chunk_fits_or_is_sentence (fuel : nat) (text : jsstring) chunks :
  nonEmpty text ->
  splitTextIntoChunks fuel text = Some chunks ->
  Forall (fun c => fits c \/ In c (splitSentences text)) chunks.
Proof.
  intros Hne H.
  eapply splitTextIntoChunks_Forall; [| |exact Hne|exact H]; cbn beta; auto.
Qed.

(** ** Claims on the splitter *)

Lemma text_that_fits_is_one_chunk (fuel : nat) (text : jsstring) :
  byteLength text <= MAX_CHUNK_SIZE ->
  splitTextIntoChunks fuel text = Some [text].
Proof.
  intros H. unfold splitTextIntoChunks.
  apply Nat.leb_le in H. now rewrite H.
Qed.

(** C7. A text of at most [MAX_CHUNK_SIZE] bytes is returned as the one-element
    list holding the text itself. *)
Theorem single_chunk_when_text_fits (fuel : nat) (text : jsstring) :
  byteLength text <= MAX_CHUNK_SIZE ->
  splitTextIntoChunks fuel text = Some [text].
Proof.
  intros H. unfold splitTextIntoChunks.
  destruct (byteLength text <=? MAX_CHUNK_SIZE) eqn:C; [reflexivity|].
  apply Nat.leb_gt in C. lia.
Qed.

Lemma single_chunk_when_text_fits_witness :
  byteLength Sample.short_text <= MAX_CHUNK_SIZE
  /\ splitTextIntoChunks 0 Sample.short_text = Some [Sample.short_text].
Proof.
  assert (H : byteLength Sample.short_text <= MAX_CHUNK_SIZE)
    by (apply Nat.leb_le; vm_compute; reflexivity).
  split; [exact H|].
  exact (single_chunk_when_text_fits 0 Sample.short_text H).
Defined.

(** C2. With enough fuel the splitter returns, and the concatenation of the
    returned chunks, in order and with no separator, is the input text. *)
Theorem chunks_concat_to_text (fuel : nat) (text : jsstring) :
  List.length text < fuel ->
  exists chunks,
    splitTextIntoChunks fuel text = Some chunks /\ concat chunks = text.
Proof.
  intros Hfuel.
  destruct (splitTextIntoChunks_some fuel text Hfuel) as [chunks H].
  exists chunks. split; [assumption|].
  eapply splitTextIntoChunks_concat; eassumption.
Qed.

Lemma chunks_concat_to_text_witness :
  List.length Sample.two_sentences < 1202
  /\ exists chunks,
       splitTextIntoChunks 1202 Sample.two_sentences = Some chunks
       /\ concat chunks = Sample.two_sentences.
Proof.
  assert (H : List.length Sample.two_sentences < 1202)
    by (apply Nat.ltb_lt; vm_compute; reflexivity).
  split; [exact H|].
  exact (chunks_concat_to_text 1202 Sample.two_sentences H).
Defined.

(** The witness above runs the sentence loop and yields two chunks. *)
Example two_sentences_chunks :
  splitTextIntoChunks 1202 Sample.two_sentences
  = Some [repeat 0x3042%Z 600 ++ [0x3002]%Z; repeat 0x3044%Z 600].
Proof. vm_compute. reflexivity. Qed.

(** C6, as the code has it. With enough fuel the splitter returns, and every
    chunk returned for a non-empty text is a non-empty string. *)
Theorem chunks_of_nonempty_text_nonempty (fuel : nat) (text : jsstring) :
  text <> [] ->
  List.length text < fuel ->
  exists chunks,
    splitTextIntoChunks fuel text = Some chunks
    /\ Forall (fun c => c <> []) chunks.
Proof.
  intros Hne Hfuel.
  destruct (splitTextIntoChunks_some fuel text Hfuel) as [chunks H].
  exists chunks. split; [assumption|].
  apply (splitTextIntoChunks_Forall nonEmpty fuel text chunks); auto.
Qed.

Lemma chunks_of_nonempty_text_nonempty_witness :
  Sample.astral_sentence <> []
  /\ List.length Sample.astral_sentence < 3001
  /\ exists chunks,
       splitTextIntoChunks 3001 Sample.astral_sentence = Some chunks
       /\ Forall (fun c => c <> []) chunks.
Proof.
  assert (Hne : Sample.astral_sentence <> []) by discriminate.
  assert (H : List.length Sample.astral_sentence < 3001)
    by (apply Nat.ltb_lt; vm_compute; reflexivity).
  split; [exact Hne|]. split; [exact H|].
  exact (chunks_of_nonempty_text_nonempty 3001 Sample.astral_sentence Hne H).
Defined.

(** C6, as stated, fails on the empty text: the splitter returns the list
    holding the empty string. *)
Lemma empty_text_gives_empty_chunk :
  exists chunks, splitTextIntoChunks 1 [] = Some chunks /\ In [] chunks.
Proof. exists [[]]. split; [reflexivity|now left]. Qed.

(** C10. The splitter returns on every text, given fuel above the length of
    the text. In the character loop the halving loop returns an end that is
    still at least 1, the extension loop returns an end that is not smaller;
    so the break point of a non-empty remainder exists, is at least 1, and
    leaves a strictly shorter remainder. *)
Theorem splitTextIntoChunks_terminates :
  (forall text k, exists chunks,
      splitTextIntoChunks (S (List.length text) + k) text = Some chunks)
  /\ (forall remaining e k, exists e',
         halveEnd (S e + k) remaining e = Some e'
         /\ e' <= e /\ (1 <= e -> 1 <= e'))
  /\ (forall remaining e k, exists e',
         extendEnd (S (List.length remaining - e) + k) remaining e = Some e'
         /\ e <= e')
  /\ (forall u rest k, exists e,
         findEnd (S (S (List.length rest)) + k) (u :: rest) = Some e
         /\ 1 <= e <= List.length (u :: rest)
         /\ List.length (JS.slice_from e (u :: rest))
            < List.length (u :: rest)).
Proof.
  split; [|split; [|split]].
  - intros text k. apply splitTextIntoChunks_some. lia.
  - intros remaining e k.
    destruct (halveEnd_some remaining (S e + k) e) as [e' He]; [lia|].
    exists e'. split; [assumption|]. split.
    + now apply (halveEnd_le remaining _ _ _ He).
    + intros H1. now apply (halveEnd_range remaining _ _ _ He).
  - intros remaining e k.
    destruct (extendEnd_some remaining (S (List.length remaining - e) + k) e)
      as [e' He]; [lia|].
    exists e'. split; [assumption|].
    now apply (extendEnd_range remaining _ _ _ He).
  - intros u rest k.
    assert (Hne : u :: rest <> []) by discriminate.
    destruct (findEnd_some (u :: rest) (S (S (List.length rest)) + k) Hne)
      as [e He]; [cbn [List.length]; lia|].
    exists e. pose proof (findEnd_range _ _ _ He Hne) as Hr.
    repeat split; try assumption; try apply Hr.
    apply slice_from_shorter; [apply Hr|assumption].
Qed.

(** C1 fails on the code. A sentence unit that is over the limit by itself
    and follows a non-empty buffer replaces the buffer without being split,
    and is pushed whole. *)
Theorem carried_sentence_exceeds_limit :
  splitTextIntoChunks 3004 Sample.carried_sentence
  = Some [[0x61; 0x3002]%Z; repeat 0x62%Z 3001]
  /\ MAX_CHUNK_SIZE < byteLength (repeat 0x62%Z 3001).
Proof.
  split.
  - vm_compute. reflexivity.
  - apply Nat.ltb_lt. vm_compute. reflexivity.
Qed.

(** C8 fails on the code. The character loop counts UTF-16 code units: here
    it cuts the sentence between the two halves of a surrogate pair, each
    half is encoded as U+FFFD, and the encodings of the chunks no longer make
    up the encoding of the sentence. *)
Theorem surrogate_pair_cut_in_the_middle :
  let c1 := JS.slice_to 1500 Sample.astral_sentence in
  let c2 := JS.slice_from 1500 Sample.astral_sentence in
  splitTextIntoChunks 3001 Sample.astral_sentence = Some [c1; c2]
  /\ last c1 0%Z = 0xD83D%Z
  /\ hd 0%Z c2 = 0xDE00%Z
  /\ skipn 2997 (TextEncoder.encode c1) = TextEncoder.replacement
  /\ firstn 3 (TextEncoder.encode c2) = TextEncoder.replacement
  /\ skipn 2997 (firstn 3001 (TextEncoder.encode Sample.astral_sentence))
     = [0xF0; 0x9F; 0x98; 0x80]%Z
  /\ TextEncoder.encode c1 ++ TextEncoder.encode c2
     <> TextEncoder.encode Sample.astral_sentence.
Proof.
  cbv zeta. repeat split; try (vm_compute; reflexivity).
  intros E. apply (f_equal (@List.length Z)) in E.
  apply Nat.eqb_eq in E. vm_compute in E. discriminate.
Qed.

(** ** Formatters *)

Lemma join_empty_separator (parts : list jsstring) :
  JS.join [] parts = concat parts.
Proof.
  induction parts as [|p ps IH]; [reflexivity|].
  cbn [JS.join concat]. destruct ps as [|p' ps].
  - now rewrite app_nil_r.
  - cbn [app]. now rewrite IH.
Qed.

Lemma distinctFurigana_same (surface : jsstring) :
  distinctFurigana surface (Some surface) = None.
Proof.
  unfold distinctFurigana. rewrite eqb_refl. cbn [negb].
  now rewrite andb_false_r.
Qed.

Lemma wordPart_same (annotate : jsstring -> jsstring -> jsstring)
    (w : Word.t) :
  Word.furigana w = Some (Word.surface w) ->
  Word.subword w = None ->
  wordPart annotate w = Word.surface w.
Proof.
  intros Hf Hs. unfold wordPart.
  now rewrite Hf, distinctFurigana_same, Hs.
Qed.

Lemma formatResult_ruby (r : FuriganaResult.t) :
  formatResult r Text.ruby = formatRuby r.
Proof. reflexivity. Qed.

Lemma formatResult_roman (r : FuriganaResult.t) :
  formatResult r Text.roman = formatWithRoman r.
Proof. reflexivity. Qed.


Lemma formatResult_bracket (r : FuriganaResult.t) :
  formatResult r Text.bracket = formatBracket r.
Proof. reflexivity. Qed.

(** C4, as the code has it. In the bracket and ruby styles a word whose
    reading is present and equal to its surface, and which has no subword
    list, contributes its bare surface to the output. *)
Theorem equal_furigana_suppressed :
  forall (before after : list Word.t) (w : Word.t) (format : jsstring),
    Word.furigana w = Some (Word.surface w) ->
    Word.subword w = None ->
    format = Text.bracket \/ format = Text.ruby ->
    formatResult (FuriganaResult.mk (before ++ w :: after)) format
    = formatResult (FuriganaResult.mk before) format
      ++ Word.surface w
      ++ formatResult (FuriganaResult.mk after) format.
Proof.
  intros before after w format Hf Hs [-> | ->].
  - rewrite !formatResult_bracket. unfold formatBracket.
    cbn [FuriganaResult.word].
    rewrite !join_empty_separator, map_app, concat_app. cbn [map concat].
    now rewrite wordPart_same.
  - rewrite !formatResult_ruby. unfold formatRuby.
    cbn [FuriganaResult.word].
    rewrite !join_empty_separator, map_app, concat_app. cbn [map concat].
    now rewrite wordPart_same.
Qed.

Lemma equal_furigana_suppressed_witness :
  formatResult
    (FuriganaResult.mk ([Sample.kanji_word] ++ Sample.kana_word :: []))
    Text.ruby
  = formatResult (FuriganaResult.mk [Sample.kanji_word]) Text.ruby
    ++ Sample.hiragana_no
    ++ formatResult (FuriganaResult.mk []) Text.ruby.
Proof.
  exact (equal_furigana_suppressed [Sample.kanji_word] [] Sample.kana_word
           Text.ruby eq_refl eq_refl (or_intror eq_refl)).
Defined.

(** C4, as stated, fails: the roman style prints the reading of a kana-only
    word, and the bracket style prints the subwords of a word that has them. *)
Lemma equal_furigana_still_annotated :
  (Word.furigana Sample.kana_word = Some (Word.surface Sample.kana_word)
   /\ formatResult (FuriganaResult.mk [Sample.kana_word]) Text.roman
      = Sample.hiragana_no ++ JS.lit ": " ++ Sample.hiragana_no
        ++ JS.lit " ()"
   /\ formatResult (FuriganaResult.mk [Sample.kana_word]) Text.roman
      <> Word.surface Sample.kana_word)
  /\ (Word.furigana Sample.kana_word_with_subwords
      = Some (Word.surface Sample.kana_word_with_subwords)
      /\ formatResult (FuriganaResult.mk [Sample.kana_word_with_subwords])
           Text.bracket
         = [0x4ECA]%Z ++ Text.open_paren ++ [0x304D; 0x3087]%Z
           ++ Text.close_paren
           ++ [0x65E5]%Z ++ Text.open_paren ++ [0x3046]%Z ++ Text.close_paren
      /\ formatResult (FuriganaResult.mk [Sample.kana_word_with_subwords])
           Text.bracket
         <> Word.surface Sample.kana_word_with_subwords).
Proof.
  repeat split; try reflexivity; vm_compute; discriminate.
Qed.

(** ** Remote calls *)

Lemma getFurigana_log (remote : Remote) text grade log :
  snd (getFurigana remote text grade log) = log ++ [requestBody text grade].
Proof.
  unfold getFurigana.
  now destruct (negb (Response.ok (remote log (requestBody text grade)))).
Qed.

Lemma getFurigana_ok (remote : Remote) text grade log :
  Response.ok (remote log (requestBody text grade)) = true ->
  getFurigana remote text grade log
  = (Normal (Response.json (remote log (requestBody text grade))),
     log ++ [requestBody text grade]).
Proof. intros H. unfold getFurigana. now rewrite H. Qed.

Lemma getFurigana_http_failure (remote : Remote) text grade log :
  Response.ok (remote log (requestBody text grade)) = false ->
  getFurigana remote text grade log
  = (Throw (JS.lit "HTTP error: "
            ++ JS.of_number
                 (Response.status (remote log (requestBody text grade)))
            ++ JS.lit " "
            ++ Response.statusText (remote log (requestBody text grade))),
     log ++ [requestBody text grade]).
Proof. intros H. unfold getFurigana. now rewrite H. Qed.

Lemma gradeInRange_true (g : Z) :
  (1 <= g <= 8)%Z -> gradeInRange (Some g) = true.
Proof.
  intros H. unfold gradeInRange. apply andb_true_iff.
  split; apply Z.leb_le; lia.
Qed.

Lemma gradeInRange_false (g : Z) :
  (g < 1 \/ 8 < g)%Z -> gradeInRange (Some g) = false.
Proof.
  intros H. unfold gradeInRange. apply andb_false_iff.
  destruct H; [left|right]; apply Z.leb_gt; lia.
Qed.

(** ** The chunk loop, one step at a time *)

Section ChunkStep.
Variables (remote : Remote) (grade : option Z) (format : jsstring).
Variables (n i : nat) (chunk : jsstring) (rest results : list jsstring).
Variable log : list RequestBody.t.

Let response : Response.t := remote log (requestBody chunk grade).

Lemma forChunks_http_failure :
  Response.ok response = false ->
  forChunks remote grade format n (chunk :: rest) i results log
  = (Throw (JS.lit "HTTP error: " ++ JS.of_number (Response.status response)
            ++ JS.lit " " ++ Response.statusText response),
     log ++ [requestBody chunk grade]).
Proof.
  intros H. cbn [forChunks]. unfold bind.
  now rewrite getFurigana_http_failure.
Qed.

Lemma forChunks_service_error (e : ApiError.t) :
  Response.ok response = true ->
  ApiResponse.error (Response.json response) = Some e ->
  forChunks remote grade format n (chunk :: rest) i results log
  = (Throw (Text.api_error ++ JS.lit " (" ++ chunkTag (i + 1) n
            ++ JS.lit "): " ++ ApiError.message e),
     log ++ [requestBody chunk grade]).
Proof.
  intros H He. cbn [forChunks]. unfold bind.
  rewrite getFurigana_ok by assumption. fold response. now rewrite He.
Qed.

Lemma forChunks_missing_result :
  Response.ok response = true ->
  ApiResponse.error (Response.json response) = None ->
  ApiResponse.result (Response.json response) = None ->
  forChunks remote grade format n (chunk :: rest) i results log
  = (Throw (Text.no_result ++ JS.lit " (" ++ chunkTag (i + 1) n
            ++ JS.lit ")"),
     log ++ [requestBody chunk grade]).
Proof.
  intros H He Hr. cbn [forChunks]. unfold bind.
  rewrite getFurigana_ok by assumption. fold response.
  now rewrite He, Hr.
Qed.

Lemma forChunks_success (r : FuriganaResult.t) :
  Response.ok response = true ->
  ApiResponse.error (Response.json response) = None ->
  ApiResponse.result (Response.json response) = Some r ->
  forChunks remote grade format n (chunk :: rest) i results log
  = forChunks remote grade format n rest (i + 1)
      (results ++ [formatResult r format])
      (log ++ [requestBody chunk grade]).
Proof.
  intros H He Hr. cbn [forChunks]. unfold bind.
  rewrite getFurigana_ok by assumption. fold response.
  now rewrite He, Hr.
Qed.
End ChunkStep.


(** ** The orchestrator *)



(** C3 fails on the code for the transport failure. Of three chunks the
    second meets HTTP status 503: the run stops after two requests, and the
    error names the status only, neither the chunk index nor the chunk count.
    A service error at the same place is reported as chunk 2 of 3. The tool
    answers the failed status with the same unattributed message. *)
Theorem http_failure_not_attributed :
  processTextWithChunking 1803 Sample.second_unavailable
    Sample.three_sentences None Text.ruby []
  = (Throw (JS.lit "HTTP error: 503 Service Unavailable"),
     [requestBody Sample.sentence1 None; requestBody Sample.sentence2 None])
  /\ processTextWithChunking 1803 Sample.second_service_error
       Sample.three_sentences None Text.ruby []
     = (Throw (Text.api_error ++ JS.lit " (" ++ Text.chunk
               ++ JS.lit " 2/3): x"),
        [requestBody Sample.sentence1 None;
         requestBody Sample.sentence2 None])
  /\ gen_furigana 1803 Sample.second_unavailable
       (ToolArgs.mk Sample.three_sentences None None) []
     = (Normal
          (ToolResult.mk
             (Text.error_occurred
              ++ JS.lit ": HTTP error: 503 Service Unavailable") true),
        [requestBody Sample.sentence1 None;
         requestBody Sample.sentence2 None]).
Proof. repeat split; vm_compute; reflexivity. Qed.

(** ** The tool *)

Lemma callTool_rejects (fuel : nat) (remote : Remote) (args : ToolArgs.t) log :
  schema args = false ->
  callTool fuel remote args log = (Normal InvalidParams, log).
Proof. intros H. unfold callTool. now rewrite H. Qed.

Lemma callTool_accepts (fuel : nat) (remote : Remote) (args : ToolArgs.t) log :
  schema args = true ->
  callTool fuel remote args log
  = (r <- gen_furigana fuel remote args ;; ret (Handled r)) log.
Proof. intros H. unfold callTool. now rewrite H. Qed.

(** C5, as the code has it. [getFurigana] puts the grade in the request
    exactly when it is present and between 1 and 8, and leaves it out
    otherwise; at the tool, a grade outside 1..8 fails the schema, and the
    call is rejected with no request sent. *)
Theorem grade_sent_only_in_range :
  (forall (remote : Remote) text g log,
      (1 <= g <= 8)%Z ->
      snd (getFurigana remote text (Some g) log)
      = log ++ [RequestBody.mk (JS.lit "1") (JS.lit "2.0")
                  (JS.lit "jlp.furiganaservice.furigana")
                  (Params.mk text (Some g))])
  /\ (forall (remote : Remote) text g log,
         (g < 1 \/ 8 < g)%Z ->
         snd (getFurigana remote text (Some g) log)
         = log ++ [RequestBody.mk (JS.lit "1") (JS.lit "2.0")
                     (JS.lit "jlp.furiganaservice.furigana")
                     (Params.mk text None)])
  /\ (forall (remote : Remote) text log,
         snd (getFurigana remote text None log)
         = log ++ [RequestBody.mk (JS.lit "1") (JS.lit "2.0")
                     (JS.lit "jlp.furiganaservice.furigana")
                     (Params.mk text None)])
  /\ (forall fuel (remote : Remote) text g output_format log,
         (g < 1 \/ 8 < g)%Z ->
         callTool fuel remote (ToolArgs.mk text (Some g) output_format) log
         = (Normal InvalidParams, log))
  /\ (forall fuel (remote : Remote) text g log,
         (1 <= g <= 8)%Z ->
         callTool fuel remote (ToolArgs.mk text (Some g) None) log
         = (r <- gen_furigana fuel remote (ToolArgs.mk text (Some g) None) ;;
            ret (Handled r)) log).
Proof.
  repeat split.
  - intros remote text g log Hg. rewrite getFurigana_log.
    unfold requestBody. now rewrite gradeInRange_true.
  - intros remote text g log Hg. rewrite getFurigana_log.
    unfold requestBody. now rewrite gradeInRange_false.
  - intros remote text log. now rewrite getFurigana_log.
  - intros fuel remote text g output_format log Hg.
    apply callTool_rejects. unfold schema. cbn [ToolArgs.grade].
    apply andb_false_iff. left. unfold gradeSchema.
    apply andb_false_iff. destruct Hg; [left|right]; apply Z.leb_gt; lia.
  - intros fuel remote text g log Hg.
    apply callTool_accepts. unfold schema.
    cbn [ToolArgs.grade ToolArgs.output_format outputFormatSchema].
    rewrite andb_true_r. unfold gradeSchema.
    apply andb_true_iff. split; apply Z.leb_le; lia.
Qed.

Lemma grade_sent_only_in_range_witness :
  snd (getFurigana Sample.echo_service Sample.short_text (Some 3%Z) [])
  = [RequestBody.mk (JS.lit "1") (JS.lit "2.0")
       (JS.lit "jlp.furiganaservice.furigana")
       (Params.mk Sample.short_text (Some 3%Z))]
  /\ snd (getFurigana Sample.echo_service Sample.short_text (Some 9%Z) [])
     = [RequestBody.mk (JS.lit "1") (JS.lit "2.0")
          (JS.lit "jlp.furiganaservice.furigana")
          (Params.mk Sample.short_text None)]
  /\ callTool 0 Sample.echo_service
       (ToolArgs.mk Sample.short_text (Some 9%Z) None) []
     = (Normal InvalidParams, []).
Proof.
  destruct grade_sent_only_in_range as (Hin & Hout & _ & Hrej & _).
  split; [|split].
  - apply (Hin Sample.echo_service Sample.short_text 3%Z []). lia.
  - apply (Hout Sample.echo_service Sample.short_text 9%Z []). lia.
  - apply (Hrej 0 Sample.echo_service Sample.short_text 9%Z None []). lia.
Defined.

(** C5, as stated, fails: a call with grade 9 is rejected, while the call
    without a grade is handled and sends a request. *)
Lemma out_of_range_grade_rejected :
  callTool 0 Sample.echo_service
    (ToolArgs.mk Sample.short_text (Some 9%Z) None) []
  = (Normal InvalidParams, [])
  /\ callTool 0 Sample.echo_service
       (ToolArgs.mk Sample.short_text None None) []
     = (Normal (Handled (ToolResult.mk Sample.short_text false)),
        [requestBody Sample.short_text None]).
Proof. split; vm_compute; reflexivity. Qed.







(** The ruby markup of the second usage example. *)
Example reading_in_ruby_markup :
  formatRuby (FuriganaResult.mk Sample.reading_words)
  = JS.lit "<ruby>" ++ [0x6F22; 0x5B57]%Z ++ JS.lit "<rt>"
    ++ [0x304B; 0x3093; 0x3058]%Z ++ JS.lit "</rt></ruby>"
    ++ [0x306E]%Z
    ++ JS.lit "<ruby>" ++ [0x8AAD]%Z ++ JS.lit "<rt>" ++ [0x3088]%Z
    ++ JS.lit "</rt></ruby>"
    ++ [0x307F]%Z
    ++ JS.lit "<ruby>" ++ [0x65B9]%Z ++ JS.lit "<rt>" ++ [0x304B; 0x305F]%Z
    ++ JS.lit "</rt></ruby>".
Proof. vm_compute. reflexivity. Qed.

(** ** Further properties of the splitter and the orchestrator *)

Lemma noHighSurrogate_forallb (s : jsstring) :
  forallb (fun u => negb (TextEncoder.is_high_surrogate u)) s = true ->
  noHighSurrogate s.
Proof.
  intros H. apply Forall_forall. intros u Hu.
  rewrite forallb_forall in H. apply H in Hu.
  now apply negb_true_iff in Hu.
Qed.

Lemma encode_app (a b : jsstring) :
  noHighSurrogate a ->
  TextEncoder.encode (a ++ b) = TextEncoder.encode a ++ TextEncoder.encode b.
Proof.
  induction 1 as [|u a Hu Ha IH]; [reflexivity|].
  cbn [app TextEncoder.encode]. rewrite Hu, IH.
  destruct (TextEncoder.is_low_surrogate u); now rewrite app_assoc.
Qed.

Lemma encode_concat (chunks : list jsstring) :
  Forall noHighSurrogate chunks ->
  TextEncoder.encode (concat chunks) = concat (map TextEncoder.encode chunks).
Proof.
  induction 1 as [|c chunks Hc Hall IH]; [reflexivity|].
  cbn [concat map]. now rewrite encode_app, IH.
Qed.

(** On a text without surrogate pairs the encodings of the chunks, one after
    the other, are the encoding of the text: no character is cut. *)
Theorem chunks_encode_to_text_encoding (fuel : nat) (text : jsstring) :
  noHighSurrogate text ->
  List.length text < fuel ->
  exists chunks,
    splitTextIntoChunks fuel text = Some chunks
    /\ concat (map TextEncoder.encode chunks) = TextEncoder.encode text.
Proof.
  intros Hno Hfuel.
  destruct (splitTextIntoChunks_some fuel text Hfuel) as [chunks H].
  exists chunks. split; [assumption|].
  apply splitTextIntoChunks_concat in H. subst text.
  symmetry. apply encode_concat.
  unfold noHighSurrogate in *. now apply Forall_concat.
Qed.

Lemma chunks_encode_to_text_encoding_witness :
  noHighSurrogate Sample.three_sentences
  /\ List.length Sample.three_sentences < 1803
  /\ exists chunks,
       splitTextIntoChunks 1803 Sample.three_sentences = Some chunks
       /\ concat (map TextEncoder.encode chunks)
          = TextEncoder.encode Sample.three_sentences.
Proof.
  assert (Hno : noHighSurrogate Sample.three_sentences)
    by (apply noHighSurrogate_forallb; vm_compute; reflexivity).
  assert (H : List.length Sample.three_sentences < 1803)
    by (apply Nat.ltb_lt; vm_compute; reflexivity).
  split; [exact Hno|]. split; [exact H|].
  exact (chunks_encode_to_text_encoding 1803 Sample.three_sentences Hno H).
Defined.

(** Every chunk of a non-empty text fits in a request, unless it is a whole
    sentence unit of the text. *)
Theorem chunks_fit_unless_whole_sentence (fuel : nat) (text : jsstring) :
  text <> [] ->
  List.length text < fuel ->
  exists chunks,
    splitTextIntoChunks fuel text = Some chunks
    /\ Forall (fun c => byteLength c <= MAX_CHUNK_SIZE
                        \/ In c (splitSentences text)) chunks.
Proof.
  intros Hne Hfuel.
  destruct (splitTextIntoChunks_some fuel text Hfuel) as [chunks H].
  exists chunks. split; [assumption|].
  now apply (chunk_fits_or_is_sentence fuel).
Qed.

Lemma chunks_fit_unless_whole_sentence_witness :
  Sample.carried_sentence <> []
  /\ List.length Sample.carried_sentence < 3004
  /\ exists chunks,
       splitTextIntoChunks 3004 Sample.carried_sentence = Some chunks
       /\ Forall (fun c => byteLength c <= MAX_CHUNK_SIZE
                           \/ In c (splitSentences Sample.carried_sentence))
            chunks.
Proof.
  assert (Hne : Sample.carried_sentence <> []) by discriminate.
  assert (H : List.length Sample.carried_sentence < 3004)
    by (apply Nat.ltb_lt; vm_compute; reflexivity).
  split; [exact Hne|]. split; [exact H|].
  exact (chunks_fit_unless_whole_sentence 3004 Sample.carried_sentence Hne H).
Defined.



(** ** The encoder, two code units at a time *)

(** Induction that follows [TextEncoder.encode]: a string is empty, one code
    unit, or two code units before a string. *)
Lemma pair_induction (P : jsstring -> Prop) :
  P [] -> (forall u, P [u]) ->
  (forall u v rest, P rest -> P (v :: rest) -> P (u :: v :: rest)) ->
  forall s, P s.
Proof.
  intros Hnil Hone Hstep s.
  enough (H : P s /\ forall u, P (u :: s)) by apply H.
  induction s as [|v rest [IH1 IH2]]; split; auto.
Qed.

Lemma utf8_length_astral (c : Z) :
  (0x10000 <= c)%Z -> List.length (TextEncoder.utf8 c) = 4.
Proof.
  intros H. unfold TextEncoder.utf8.
  destruct (c <? 0x80)%Z eqn:C1; [apply Z.ltb_lt in C1; lia|].
  destruct (c <? 0x800)%Z eqn:C2; [apply Z.ltb_lt in C2; lia|].
  destruct (c <? 0x10000)%Z eqn:C3; [apply Z.ltb_lt in C3; lia|].
  reflexivity.
Qed.

Lemma utf8_length_bmp (c : Z) :
  (c < 0x10000)%Z -> List.length (TextEncoder.utf8 c) <= 3.
Proof.
  intros H. unfold TextEncoder.utf8.
  destruct (c <? 0x80)%Z; [simpl; lia|].
  destruct (c <? 0x800)%Z; [simpl; lia|].
  destruct (c <? 0x10000)%Z eqn:C3; [simpl; lia|].
  apply Z.ltb_ge in C3. lia.
Qed.

Lemma pair_code_point_astral (hi lo : Z) :
  TextEncoder.is_high_surrogate hi = true ->
  TextEncoder.is_low_surrogate lo = true ->
  (0x10000 <= TextEncoder.pair_code_point hi lo)%Z.
Proof.
  unfold TextEncoder.is_high_surrogate, TextEncoder.is_low_surrogate,
    TextEncoder.pair_code_point.
  intros Hhi Hlo.
  apply andb_true_iff in Hhi as [Hhi _]. apply Z.leb_le in Hhi.
  apply andb_true_iff in Hlo as [Hlo _]. apply Z.leb_le in Hlo.
  assert (0 <= Z.shiftl (hi - 0xD800) 10)%Z by (apply Z.shiftl_nonneg; lia).
  lia.
Qed.

(** What [encode] does with the first code unit, or the first two. *)
Lemma encode_pair (u v : Z) (rest : jsstring) :
  TextEncoder.is_high_surrogate u = true ->
  TextEncoder.is_low_surrogate v = true ->
  TextEncoder.encode (u :: v :: rest)
  = TextEncoder.utf8 (TextEncoder.pair_code_point u v)
    ++ TextEncoder.encode rest.
Proof. intros Hu Hv. cbn [TextEncoder.encode]. now rewrite Hu, Hv. Qed.

Lemma encode_lone_high (u v : Z) (rest : jsstring) :
  TextEncoder.is_high_surrogate u = true ->
  TextEncoder.is_low_surrogate v = false ->
  TextEncoder.encode (u :: v :: rest)
  = TextEncoder.replacement ++ TextEncoder.encode (v :: rest).
Proof. intros Hu Hv. cbn [TextEncoder.encode]. now rewrite Hu, Hv. Qed.

Lemma encode_not_high (u : Z) (rest : jsstring) :
  TextEncoder.is_high_surrogate u = false ->
  TextEncoder.encode (u :: rest)
  = (if TextEncoder.is_low_surrogate u then TextEncoder.replacement
     else TextEncoder.utf8 u) ++ TextEncoder.encode rest.
Proof.
  intros Hu. cbn [TextEncoder.encode]. rewrite Hu.
  now destruct (TextEncoder.is_low_surrogate u).
Qed.

Lemma high_not_low (u : Z) :
  TextEncoder.is_high_surrogate u = true ->
  TextEncoder.is_low_surrogate u = false.
Proof.
  unfold TextEncoder.is_high_surrogate, TextEncoder.is_low_surrogate.
  intros H. apply andb_true_iff in H as [_ H]. apply Z.leb_le in H.
  apply andb_false_iff. left. apply Z.leb_gt. lia.
Qed.

Lemma replacement_length : List.length TextEncoder.replacement = 3.
Proof. reflexivity. Qed.

Lemma encode_one_high (u : Z) :
  TextEncoder.is_high_surrogate u = true ->
  TextEncoder.encode [u] = TextEncoder.replacement.
Proof. intros Hu. cbn [TextEncoder.encode]. now rewrite Hu. Qed.

Lemma encode_nil : TextEncoder.encode [] = [].
Proof. reflexivity. Qed.

Lemma firstBytes_length (u : Z) :
  1 <= List.length (if TextEncoder.is_low_surrogate u
                    then TextEncoder.replacement else TextEncoder.utf8 u) <= 4.
Proof.
  destruct (TextEncoder.is_low_surrogate u).
  - rewrite replacement_length. lia.
  - apply utf8_length.
Qed.

Lemma firstBytes_length_bmp (u : Z) :
  (u < 0x10000)%Z ->
  List.length (if TextEncoder.is_low_surrogate u
               then TextEncoder.replacement else TextEncoder.utf8 u) <= 3.
Proof.
  intros H. destruct (TextEncoder.is_low_surrogate u).
  - rewrite replacement_length. lia.
  - now apply utf8_length_bmp.
Qed.

(** Appending never shortens the encoding. *)
Lemma byteLength_app_le (a : jsstring) :
  forall b, byteLength a <= byteLength (a ++ b).
Proof.
  unfold byteLength.
  induction a as [|u|u v rest IH1 IH2] using pair_induction; intros b.
  - rewrite encode_nil. cbn [List.length]. lia.
  - cbn [app].
    destruct (TextEncoder.is_high_surrogate u) eqn:Hu.
    + rewrite (encode_one_high u Hu), replacement_length.
      destruct b as [|v b].
      * rewrite (encode_one_high u Hu), replacement_length. lia.
      * destruct (TextEncoder.is_low_surrogate v) eqn:Hv.
        -- rewrite encode_pair, length_app, utf8_length_astral by
             (auto using pair_code_point_astral). lia.
        -- rewrite encode_lone_high, length_app, replacement_length
             by assumption. lia.
    + rewrite !encode_not_high, !length_app, encode_nil by assumption.
      cbn [List.length]. lia.
  - cbn [app].
    destruct (TextEncoder.is_high_surrogate u) eqn:Hu.
    + destruct (TextEncoder.is_low_surrogate v) eqn:Hv.
      * rewrite !encode_pair, !length_app by assumption.
        specialize (IH1 b). lia.
      * rewrite !encode_lone_high, !length_app by assumption.
        specialize (IH2 b). cbn [app] in IH2. lia.
    + rewrite (encode_not_high u (v :: rest)),
        (encode_not_high u (v :: rest ++ b)), !length_app by assumption.
      specialize (IH2 b). cbn [app] in IH2. lia.
Qed.

Lemma byteLength_slice_to_le (e e' : nat) (s : jsstring) :
  e <= e' ->
  byteLength (JS.slice_to e s) <= byteLength (JS.slice_to e' s).
Proof.
  intros H. unfold JS.slice_to.
  replace (firstn e s) with (firstn e (firstn e' s))
    by (now rewrite firstn_firstn, Nat.min_l).
  generalize (firstn e' s). intros x.
  rewrite <- (firstn_skipn e x) at 2. apply byteLength_app_le.
Qed.

(** A string takes at least one byte per code unit, and at most three when
    its code units are 16-bit values. *)
Lemma byteLength_lower (s : jsstring) : List.length s <= byteLength s.
Proof.
  unfold byteLength.
  induction s as [|u|u v rest IH1 IH2] using pair_induction.
  - rewrite encode_nil. cbn [List.length]. lia.
  - destruct (TextEncoder.is_high_surrogate u) eqn:Hu.
    + rewrite (encode_one_high u Hu), replacement_length.
      cbn [List.length]. lia.
    + rewrite encode_not_high, length_app, encode_nil by assumption.
      pose proof (firstBytes_length u). cbn [List.length]. lia.
  - cbn [List.length] in *.
    destruct (TextEncoder.is_high_surrogate u) eqn:Hu.
    + destruct (TextEncoder.is_low_surrogate v) eqn:Hv.
      * rewrite encode_pair, length_app, utf8_length_astral by
          (auto using pair_code_point_astral). lia.
      * rewrite encode_lone_high, length_app, replacement_length
          by assumption. lia.
    + rewrite encode_not_high, length_app by assumption.
      pose proof (firstBytes_length u). lia.
Qed.

Lemma byteLength_upper (s : jsstring) :
  Forall codeUnit s -> byteLength s <= 3 * List.length s.
Proof.
  unfold byteLength.
  induction s as [|u|u v rest IH1 IH2] using pair_induction; intros Hs.
  - rewrite encode_nil. cbn [List.length]. lia.
  - apply Forall_inv in Hs. unfold codeUnit in Hs.
    destruct (TextEncoder.is_high_surrogate u) eqn:Hu.
    + rewrite (encode_one_high u Hu), replacement_length.
      cbn [List.length]. lia.
    + rewrite encode_not_high, length_app, encode_nil by assumption.
      pose proof (firstBytes_length_bmp u). cbn [List.length]. lia.
  - pose proof (Forall_inv Hs) as Hu0. unfold codeUnit in Hu0.
    apply Forall_inv_tail in Hs. pose proof (Forall_inv_tail Hs) as Hrest.
    specialize (IH1 Hrest). specialize (IH2 Hs).
    cbn [List.length] in *.
    destruct (TextEncoder.is_high_surrogate u) eqn:Hu.
    + destruct (TextEncoder.is_low_surrogate v) eqn:Hv.
      * rewrite encode_pair, length_app, utf8_length_astral by
          (auto using pair_code_point_astral). lia.
      * rewrite encode_lone_high, length_app, replacement_length
          by assumption. lia.
    + rewrite encode_not_high, length_app by assumption.
      pose proof (firstBytes_length_bmp u). lia.
Qed.

(** ** The character loop cuts longest prefixes *)

Lemma extendEnd_stop (remaining : jsstring) : forall fuel e e',
  extendEnd fuel remaining e = Some e' ->
  List.length remaining <= e'
  \/ MAX_CHUNK_SIZE < byteLength (JS.slice_to (e' + 1) remaining).
Proof.
  induction fuel as [|fuel IH]; intros e e' H; [discriminate|].
  cbn [extendEnd] in H.
  destruct ((e <? JS.length remaining) && _) eqn:C.
  - eapply IH; eassumption.
  - injection H as <-. apply andb_false_iff in C as [C|C].
    + apply Nat.ltb_ge in C. now left.
    + apply Nat.leb_gt in C. now right.
Qed.

Lemma findEnd_longest (remaining : jsstring) (fuel e : nat) :
  findEnd fuel remaining = Some e ->
  forall e', e < e' -> e' <= List.length remaining ->
             MAX_CHUNK_SIZE < byteLength (JS.slice_to e' remaining).
Proof.
  unfold findEnd. intros H e' Hlt Hle.
  destruct (halveEnd fuel remaining (JS.length remaining)) as [e0|];
    [|discriminate].
  apply extendEnd_stop in H. destruct H as [H|H]; [lia|].
  pose proof (byteLength_slice_to_le (e + 1) e' remaining). lia.
Qed.

Lemma splitByCharacters_pieces : forall fuel remaining chunks out,
  splitByCharacters fuel remaining chunks = Some out ->
  exists pieces,
    out = chunks ++ pieces
    /\ concat pieces = remaining
    /\ Forall (fun c => c <> [] /\ byteLength c <= MAX_CHUNK_SIZE) pieces
    /\ longestPrefixes remaining pieces.
Proof.
  induction fuel as [|fuel IH]; intros remaining chunks out H;
    [discriminate|].
  cbn [splitByCharacters] in H.
  destruct (JS.truthy remaining) eqn:T.
  - apply truthy_true in T.
    destruct (findEnd (S fuel) remaining) as [e|] eqn:He; [|discriminate].
    pose proof (findEnd_range _ _ _ He T) as Hr.
    apply IH in H. destruct H as (pieces & -> & Hcat & Hall & Hlong).
    exists (JS.slice_to e remaining :: pieces).
    assert (Hlen : List.length (JS.slice_to e remaining) = e)
      by (unfold JS.slice_to; rewrite length_firstn; lia).
    split; [now rewrite <- app_assoc|]. split; [|split].
    + cbn [concat]. rewrite Hcat. apply firstn_skipn.
    + constructor; [|assumption]. split.
      * now apply slice_to_nonEmpty.
      * apply (findEnd_fits _ _ _ He T).
    + cbn [longestPrefixes]. rewrite Hlen. split; [|assumption].
      apply (findEnd_longest _ _ _ He).
  - apply truthy_false in T. subst. injection H as <-.
    exists []. rewrite app_nil_r. repeat split; constructor.
Qed.

(** The character loop returns, given fuel above the length of the string it
    is given; its pieces are non-empty, fit in a request, make up the string,
    and each is the longest prefix of the remainder that fits. *)
Theorem character_loop_cuts_longest_prefixes (fuel : nat)
    (sentence : jsstring) :
  List.length sentence < fuel ->
  exists pieces,
    splitByCharacters fuel sentence [] = Some pieces
    /\ concat pieces = sentence
    /\ Forall (fun c => c <> [] /\ byteLength c <= MAX_CHUNK_SIZE) pieces
    /\ longestPrefixes sentence pieces.
Proof.
  intros Hfuel.
  destruct (splitByCharacters_some fuel sentence [] Hfuel) as [out H].
  destruct (splitByCharacters_pieces _ _ _ _ H) as (pieces & -> & Hrest).
  exists pieces. now split.
Qed.

Lemma character_loop_cuts_longest_prefixes_witness :
  List.length Scenario.long_kana < 1002
  /\ exists pieces,
       splitByCharacters 1002 Scenario.long_kana [] = Some pieces
       /\ concat pieces = Scenario.long_kana
       /\ Forall (fun c => c <> [] /\ byteLength c <= MAX_CHUNK_SIZE) pieces
       /\ longestPrefixes Scenario.long_kana pieces.
Proof.
  assert (H : List.length Scenario.long_kana < 1002)
    by (apply Nat.ltb_lt; vm_compute; reflexivity).
  split; [exact H|].
  exact (character_loop_cuts_longest_prefixes 1002 Scenario.long_kana H).
Defined.

(** The pieces of the sample: 1000 code units, then 1. *)
Example long_kana_pieces :
  splitByCharacters 1002 Scenario.long_kana []
  = Some [repeat 0x3042%Z 1000; [0x3042%Z]].
Proof. vm_compute. reflexivity. Qed.

(** ** Short texts *)

(** A text of 16-bit code units whose length, times three, is within the
    limit (at most 1000 code units) is returned as one chunk. *)
Theorem short_text_is_one_chunk (fuel : nat) (text : jsstring) :
  Forall codeUnit text ->
  3 * List.length text <= MAX_CHUNK_SIZE ->
  splitTextIntoChunks fuel text = Some [text].
Proof.
  intros Hunits Hlen. apply text_that_fits_is_one_chunk.
  pose proof (byteLength_upper text Hunits). lia.
Qed.

Lemma short_text_is_one_chunk_witness :
  Forall codeUnit Sample.reading_text
  /\ 3 * List.length Sample.reading_text <= MAX_CHUNK_SIZE
  /\ splitTextIntoChunks 0 Sample.reading_text = Some [Sample.reading_text].
Proof.
  assert (Hu : Forall codeUnit Sample.reading_text)
    by (repeat constructor; unfold codeUnit; lia).
  assert (Hl : 3 * List.length Sample.reading_text <= MAX_CHUNK_SIZE)
    by (apply Nat.leb_le; vm_compute; reflexivity).
  split; [exact Hu|]. split; [exact Hl|].
  exact (short_text_is_one_chunk 0 Sample.reading_text Hu Hl).
Defined.

(** ** Sentence units *)

Lemma splitSentences_head (text : jsstring) :
  text <> [] ->
  exists s1 rest, splitSentences text = s1 :: rest /\ s1 <> [].
Proof.
  destruct text as [|u r]; [congruence|]. intros _. cbn [splitSentences].
  destruct (isSentenceEnd u && JS.truthy r).
  - exists [u], (splitSentences r). split; [reflexivity|discriminate].
  - destruct (splitSentences r) as [|piece pieces].
    + exists [u], []. split; [reflexivity|discriminate].
    + exists (u :: piece), pieces. split; [reflexivity|discriminate].
Qed.

Lemma splitSentences_nonEmpty (text : jsstring) :
  text <> [] -> Forall nonEmpty (splitSentences text).
Proof.
  induction text as [|u r IH]; [congruence|]. intros _.
  cbn [splitSentences].
  destruct (isSentenceEnd u && JS.truthy r) eqn:C.
  - apply andb_true_iff in C as [_ C]. apply truthy_true in C.
    constructor; [discriminate|auto].
  - destruct r as [|v r].
    + cbn. repeat constructor. discriminate.
    + assert (H : Forall nonEmpty (splitSentences (v :: r)))
        by (apply IH; discriminate).
      destruct (splitSentences (v :: r)) as [|piece pieces].
      * repeat constructor. discriminate.
      * constructor; [discriminate|]. now apply Forall_inv_tail in H.
Qed.

(** The sentence units of a non-empty text: they make up the text, none is
    empty, a sentence end occurs in a unit only as its last code unit, and
    every unit but the last ends with one. *)
Theorem sentence_units (text : jsstring) :
  text <> [] ->
  concat (splitSentences text) = text
  /\ Forall (fun s => s <> []) (splitSentences text)
  /\ Forall (fun s => Forall (fun u => isSentenceEnd u = false)
                        (removelast s)) (splitSentences text)
  /\ Forall (fun s => isSentenceEnd (last s 0%Z) = true)
       (removelast (splitSentences text)).
Proof.
  intros Hne. split; [apply concat_splitSentences|].
  split; [now apply splitSentences_nonEmpty|].
  clear Hne. induction text as [|u r [IH1 IH2]].
  - cbn. split; repeat constructor.
  - cbn [splitSentences].
    destruct (isSentenceEnd u && JS.truthy r) eqn:C.
    + apply andb_true_iff in C as [Cu Cr]. apply truthy_true in Cr.
      destruct (splitSentences_head r Cr) as (s1 & rest & E & _).
      split.
      * constructor; [constructor|assumption].
      * rewrite E in *. cbn [removelast] in *.
        constructor; [exact Cu|exact IH2].
    + destruct r as [|v r].
      * cbn. split; repeat constructor.
      * assert (Cu : isSentenceEnd u = false).
        { apply andb_false_iff in C as [C|C]; [exact C|discriminate]. }
        assert (Hv : v :: r <> []) by discriminate.
        destruct (splitSentences_head (v :: r) Hv) as (s1 & rest & E & Hs1).
        rewrite E in *. 
        assert (Hrl : removelast (u :: s1) = u :: removelast s1)
          by (destruct s1; [congruence|reflexivity]).
        assert (Hl : last (u :: s1) 0%Z = last s1 0%Z)
          by (destruct s1; [congruence|reflexivity]).
        split.
        -- constructor.
           ++ rewrite Hrl. constructor; [exact Cu|].
              exact (Forall_inv IH1).
           ++ exact (Forall_inv_tail IH1).
        -- destruct rest as [|s2 rest]; [constructor|].
           cbn [removelast] in *.
           constructor; [|exact (Forall_inv_tail IH2)].
           rewrite Hl. exact (Forall_inv IH2).
Qed.

Lemma sentence_units_witness :
  Sample.three_sentences <> []
  /\ concat (splitSentences Sample.three_sentences) = Sample.three_sentences
  /\ Forall (fun s => s <> []) (splitSentences Sample.three_sentences)
  /\ Forall (fun s => Forall (fun u => isSentenceEnd u = false)
                        (removelast s))
       (splitSentences Sample.three_sentences)
  /\ Forall (fun s => isSentenceEnd (last s 0%Z) = true)
       (removelast (splitSentences Sample.three_sentences)).
Proof.
  assert (Hne : Sample.three_sentences <> []) by discriminate.
  split; [exact Hne|]. exact (sentence_units Sample.three_sentences Hne).
Defined.

(** ** One chunk exactly when the text fits *)

Lemma byteLength_nil : byteLength [] = 0.
Proof. reflexivity. Qed.

Lemma over_limit_nonEmpty (text : jsstring) :
  MAX_CHUNK_SIZE < byteLength text -> text <> [].
Proof. intros H ->. rewrite byteLength_nil in H. lia. Qed.

(** Every chunk fits, or is a sentence unit after the first one. *)
Lemma chunk_fits_or_later_sentence (fuel : nat) (text : jsstring) chunks :
  splitTextIntoChunks fuel text = Some chunks ->
  Forall (fun c => fits c \/ In c (tl (splitSentences text))) chunks.
Proof.
  unfold splitTextIntoChunks.
  destruct (byteLength text <=? MAX_CHUNK_SIZE) eqn:C.
  - intros H; injection H as <-. apply Nat.leb_le in C.
    constructor; [now left|constructor].
  - apply Nat.leb_gt in C. pose proof (over_limit_nonEmpty text C) as Hne.
    destruct (splitSentences_head text Hne) as (s1 & rest & E & Hs1).
    rewrite E. cbn [tl forSentences app JS.truthy].
    set (P := fun c => fits c \/ In c rest).
    assert (HP : forall c, nonEmpty c -> fits c -> P c) by (now left).
    assert (Hs : forall s, In s rest -> nonEmpty s -> P s) by (now right).
    intros H.
    assert (G : exists chunks0 cur,
               Some (if JS.truthy cur then chunks0 ++ [cur] else chunks0)
               = Some chunks
               /\ Forall P chunks0 /\ (nonEmpty cur -> P cur)).
    { destruct (MAX_CHUNK_SIZE <? byteLength s1) eqn:C1.
      - destruct (splitByCharacters fuel s1 []) as [chunks1|] eqn:B;
          [|discriminate].
        destruct (forSentences fuel rest chunks1 []) as [[chunks0 cur]|]
          eqn:F; [|discriminate].
        exists chunks0, cur. split; [exact H|].
        eapply (forSentences_Forall P fuel HP); [exact Hs|exact F| |].
        + eapply splitByCharacters_Forall; [exact HP|exact B|constructor].
        + intros E0. now elim E0.
      - apply Nat.ltb_ge in C1.
        destruct (forSentences fuel rest [] s1) as [[chunks0 cur]|] eqn:F;
          [|discriminate].
        exists chunks0, cur. split; [exact H|].
        eapply (forSentences_Forall P fuel HP); [exact Hs|exact F| |].
        + constructor.
        + intros _. now left. }
    destruct G as (chunks0 & cur & Hc & Hall & Hcur).
    injection Hc as <-.
    destruct (JS.truthy cur) eqn:T; [|assumption].
    apply truthy_true in T. apply Forall_app. split; [assumption|].
    constructor; [now apply Hcur|constructor].
Qed.

Lemma one_chunk_fits (fuel : nat) (text c : jsstring) :
  splitTextIntoChunks fuel text = Some [c] -> fits text.
Proof.
  intros H.
  destruct text as [|u r] eqn:Et.
  { unfold fits. rewrite byteLength_nil. lia. }
  rewrite <- Et in *.
  assert (Hne : text <> []) by (rewrite Et; discriminate).
  pose proof (splitTextIntoChunks_concat _ _ _ H) as Hc.
  cbn [concat] in Hc. rewrite app_nil_r in Hc. subst c.
  apply chunk_fits_or_later_sentence in H. apply Forall_inv in H.
  destruct H as [H|H]; [exact H|exfalso].
  destruct (splitSentences_head text Hne) as (s1 & rest & E & Hs1).
  rewrite E in H. cbn [tl] in H. apply length_in_concat in H.
  pose proof (concat_splitSentences text) as Hcat. rewrite E in Hcat.
  cbn [concat] in Hcat. apply (f_equal (@List.length Z)) in Hcat.
  rewrite length_app in Hcat.
  destruct s1; [congruence|]. cbn [List.length] in Hcat. lia.
Qed.

(** With enough fuel the splitter returns; it returns one chunk exactly when
    the text fits in a request, and at least two chunks when it does not. *)
Theorem one_chunk_iff_text_fits (fuel : nat) (text : jsstring) :
  List.length text < fuel ->
  exists chunks,
    splitTextIntoChunks fuel text = Some chunks
    /\ (List.length chunks = 1 <-> byteLength text <= MAX_CHUNK_SIZE)
    /\ (MAX_CHUNK_SIZE < byteLength text -> 2 <= List.length chunks).
Proof.
  intros Hfuel.
  destruct (splitTextIntoChunks_some fuel text Hfuel) as [chunks H].
  exists chunks. split; [exact H|].
  assert (Hone : List.length chunks = 1 -> byteLength text <= MAX_CHUNK_SIZE).
  { intros Hl. destruct chunks as [|c [|d chunks]]; try discriminate.
    exact (one_chunk_fits fuel text c H). }
  split; [split; [exact Hone|]|].
  - intros Hfit. rewrite (text_that_fits_is_one_chunk fuel text Hfit) in H.
    now injection H as <-.
  - intros Hover.
    destruct chunks as [|c [|d chunks]]; cbn [List.length]; try lia.
    + apply splitTextIntoChunks_concat in H. cbn in H. subst text.
      rewrite byteLength_nil in Hover. lia.
    + specialize (Hone eq_refl). lia.
Qed.

Lemma one_chunk_iff_text_fits_witness :
  List.length Scenario.long_kana < 1002
  /\ exists chunks,
       splitTextIntoChunks 1002 Scenario.long_kana = Some chunks
       /\ (List.length chunks = 1
           <-> byteLength Scenario.long_kana <= MAX_CHUNK_SIZE)
       /\ (MAX_CHUNK_SIZE < byteLength Scenario.long_kana ->
           2 <= List.length chunks).
Proof.
  assert (H : List.length Scenario.long_kana < 1002)
    by (apply Nat.ltb_lt; vm_compute; reflexivity).
  split; [exact H|].
  exact (one_chunk_iff_text_fits 1002 Scenario.long_kana H).
Defined.

(** ** Texts whose sentence units all fit *)

Lemma concat_nil_nonEmpty (g : list jsstring) :
  Forall nonEmpty g -> concat g = [] -> g = [].
Proof.
  destruct g as [|s g]; [reflexivity|]. intros H E.
  apply Forall_inv in H. cbn [concat] in E.
  apply app_eq_nil in E as [E _]. contradiction.
Qed.

Lemma fits_forallb (l : list jsstring) :
  forallb (fun s => byteLength s <=? MAX_CHUNK_SIZE) l = true ->
  Forall fits l.
Proof.
  intros H. apply Forall_forall. intros s Hs.
  rewrite forallb_forall in H. apply H in Hs. now apply Nat.leb_le in Hs.
Qed.

(** When every sentence fits, the buffer is a run of whole sentences and so
    is every chunk; the character loop is never entered. *)
Lemma forSentences_groups (fuel : nat) : forall sentences groups g,
  Forall fits sentences -> Forall nonEmpty sentences ->
  Forall nonEmpty g ->
  Forall (fun g0 => g0 <> []) groups ->
  Forall fits (map (@concat Z) groups) -> fits (concat g) ->
  exists groups' g',
    forSentences fuel sentences (map (@concat Z) groups) (concat g)
    = Some (map (@concat Z) groups', concat g')
    /\ concat groups' ++ g' = concat groups ++ g ++ sentences
    /\ Forall nonEmpty g'
    /\ Forall (fun g0 => g0 <> []) groups'
    /\ Forall fits (map (@concat Z) groups') /\ fits (concat g').
Proof.
  induction sentences as [|s rest IH];
    intros groups g Hfit Hne Hg Hgroups Hchunks Hcur.
  - exists groups, g. cbn [forSentences]. rewrite app_nil_r. auto 10.
  - pose proof (Forall_inv Hfit) as Hs. pose proof (Forall_inv Hne) as Hsne.
    apply Forall_inv_tail in Hfit. apply Forall_inv_tail in Hne.
    cbn [forSentences].
    destruct (MAX_CHUNK_SIZE <? byteLength (concat g ++ s)) eqn:C.
    + destruct (JS.truthy (concat g)) eqn:T.
      * apply truthy_true in T.
        destruct (IH (groups ++ [g]) [s]) as (groups' & g' & E & Hcat & H')
          ; try assumption.
        -- repeat constructor. exact Hsne.
        -- apply Forall_app. split; [assumption|].
           constructor; [|constructor]. intros ->. now apply T.
        -- rewrite map_app. apply Forall_app. split; [assumption|].
           constructor; [exact Hcur|constructor].
        -- cbn [concat]. now rewrite app_nil_r.
        -- exists groups', g'. rewrite map_app in E. cbn [map concat] in E.
           rewrite app_nil_r in E. split; [exact E|]. split; [|exact H'].
           rewrite Hcat, concat_app. cbn [concat].
           now rewrite app_nil_r, <- app_assoc.
      * apply truthy_false in T. rewrite T in C. cbn [app] in C.
        apply Nat.ltb_lt in C. unfold fits in Hs. lia.
    + apply Nat.ltb_ge in C.
      destruct (IH groups (g ++ [s])) as (groups' & g' & E & Hcat & H')
        ; try assumption.
      * apply Forall_app. split; [assumption|]. repeat constructor.
        exact Hsne.
      * rewrite concat_app. cbn [concat]. now rewrite app_nil_r.
      * exists groups', g'. rewrite concat_app in E. cbn [concat] in E.
        rewrite app_nil_r in E. split; [exact E|]. split; [|exact H'].
        now rewrite Hcat, <- app_assoc.
Qed.

(** When every sentence unit of the text fits in a request, so does every
    chunk, and the chunks are runs of whole sentence units: no sentence is
    cut. This holds for any fuel. *)
Theorem chunks_are_whole_sentences (fuel : nat) (text : jsstring) :
  Forall (fun s => byteLength s <= MAX_CHUNK_SIZE) (splitSentences text) ->
  exists groups,
    splitTextIntoChunks fuel text = Some (map (@concat Z) groups)
    /\ concat groups = splitSentences text
    /\ Forall (fun g => g <> []) groups
    /\ Forall (fun c => byteLength c <= MAX_CHUNK_SIZE)
         (map (@concat Z) groups).
Proof.
  intros Hfit. unfold splitTextIntoChunks.
  destruct (byteLength text <=? MAX_CHUNK_SIZE) eqn:C.
  - apply Nat.leb_le in C. exists [splitSentences text].
    cbn [map concat]. rewrite !app_nil_r, concat_splitSentences.
    split; [reflexivity|]. split; [reflexivity|]. split.
    + constructor; [|constructor]. intros E.
      pose proof (concat_splitSentences text) as Hc. rewrite E in Hc.
      cbn in Hc. subst text. discriminate.
    + constructor; [exact C|constructor].
  - apply Nat.leb_gt in C. pose proof (over_limit_nonEmpty text C) as Hne.
    destruct (forSentences_groups fuel (splitSentences text) [] [])
      as (groups & g & E & Hcat & Hg & Hgroups & Hchunks & Hcur);
      try (now constructor); try assumption.
    + now apply splitSentences_nonEmpty.
    + unfold fits. cbn [concat]. rewrite byteLength_nil. lia.
    + cbn [concat app] in Hcat.
      assert (E' : forSentences fuel (splitSentences text) [] []
                   = Some (map (@concat Z) groups, concat g)) by exact E.
      clear E. rename E' into E.
      destruct (JS.truthy (concat g)) eqn:T.
      * exists (groups ++ [g]). rewrite E, T.
        apply truthy_true in T.
        rewrite map_app. cbn [map]. split; [reflexivity|].
        rewrite concat_app. cbn [concat]. rewrite app_nil_r.
        split; [exact Hcat|]. split.
        -- apply Forall_app. split; [assumption|].
           constructor; [|constructor]. intros ->. now apply T.
        -- apply Forall_app. split; [assumption|].
           constructor; [exact Hcur|constructor].
      * exists groups. rewrite E, T. apply truthy_false in T.
        apply (concat_nil_nonEmpty g Hg) in T. subst g.
        rewrite app_nil_r in Hcat. auto.
Qed.

Lemma chunks_are_whole_sentences_witness :
  Forall (fun s => byteLength s <= MAX_CHUNK_SIZE)
    (splitSentences Sample.three_sentences)
  /\ exists groups,
       splitTextIntoChunks 0 Sample.three_sentences
       = Some (map (@concat Z) groups)
       /\ concat groups = splitSentences Sample.three_sentences
       /\ Forall (fun g => g <> []) groups
       /\ Forall (fun c => byteLength c <= MAX_CHUNK_SIZE)
            (map (@concat Z) groups).
Proof.
  assert (H : Forall (fun s => byteLength s <= MAX_CHUNK_SIZE)
                (splitSentences Sample.three_sentences))
    by (apply fits_forallb; vm_compute; reflexivity).
  split; [exact H|].
  exact (chunks_are_whole_sentences 0 Sample.three_sentences H).
Defined.

(** ** Formatting a word list in two parts *)

Lemma join_app (sep : jsstring) (l1 l2 : list jsstring) :
  l1 <> [] -> l2 <> [] ->
  JS.join sep (l1 ++ l2) = JS.join sep l1 ++ sep ++ JS.join sep l2.
Proof.
  intros H1 H2. induction l1 as [|p l1 IH]; [congruence|].
  destruct l1 as [|p' l1].
  - cbn [app]. destruct l2 as [|q l2]; [congruence|]. reflexivity.
  - change ((p :: p' :: l1) ++ l2) with (p :: (p' :: l1) ++ l2).
    cbn [JS.join app] in *. rewrite IH by discriminate.
    now rewrite <- !app_assoc.
Qed.

Lemma formatResult_word (r1 r2 : FuriganaResult.t) (format : jsstring) :
  FuriganaResult.word r1 = FuriganaResult.word r2 ->
  formatResult r1 format = formatResult r2 format.
Proof. destruct r1, r2. cbn [FuriganaResult.word]. now intros ->. Qed.

Lemma formatResult_eta (r : FuriganaResult.t) (format : jsstring) :
  formatResult (FuriganaResult.mk (FuriganaResult.word r)) format
  = formatResult r format.
Proof. now destruct r. Qed.

Lemma chunkSeparator_roman : chunkSeparator Text.roman = Text.newline.
Proof. reflexivity. Qed.

Lemma chunkSeparator_other (format : jsstring) :
  format <> Text.roman -> chunkSeparator format = [].
Proof.
  intros H. unfold chunkSeparator.
  destruct (JS.eqb format Text.roman) eqn:E; [|reflexivity].
  apply eqb_eq in E. contradiction.
Qed.

Lemma formatResult_not_roman (r : FuriganaResult.t) (format : jsstring) :
  format <> Text.roman ->
  exists annotate,
    formatResult r format
    = concat (map (wordPart annotate) (FuriganaResult.word r))
    /\ forall r', formatResult r' format
                  = concat (map (wordPart annotate) (FuriganaResult.word r')).
Proof.
  intros H. unfold formatResult.
  destruct (JS.eqb format Text.ruby) eqn:E1.
  - exists rubyTag. unfold formatRuby.
    split; [|intros r']; apply join_empty_separator.
  - destruct (JS.eqb format Text.roman) eqn:E2;
      [apply eqb_eq in E2; contradiction|].
    exists bracketed. unfold formatBracket.
    split; [|intros r']; apply join_empty_separator.
Qed.

Lemma map_not_nil (A B : Type) (f : A -> B) (l : list A) :
  l <> [] -> map f l <> [].
Proof. destruct l; [congruence|discriminate]. Qed.

Lemma format_in_two_parts_aux (format : jsstring) (ws1 ws2 : list Word.t) :
  (format = Text.roman -> ws1 <> [] /\ ws2 <> []) ->
  formatResult (FuriganaResult.mk (ws1 ++ ws2)) format
  = formatResult (FuriganaResult.mk ws1) format
    ++ chunkSeparator format
    ++ formatResult (FuriganaResult.mk ws2) format.
Proof.
  intros H. destruct (JS.eqb format Text.roman) eqn:E.
  - apply eqb_eq in E. subst format. destruct (H eq_refl) as [H1 H2].
    rewrite chunkSeparator_roman, !formatResult_roman.
    unfold formatWithRoman. cbn [FuriganaResult.word].
    rewrite map_app. apply join_app; now apply map_not_nil.
  - assert (Hn : format <> Text.roman).
    { intros ->. rewrite eqb_refl in E. discriminate. }
    rewrite (chunkSeparator_other format Hn). cbn [app].
    destruct (formatResult_not_roman (FuriganaResult.mk ws1) format Hn)
      as (annotate & _ & Hall).
    rewrite !Hall. cbn [FuriganaResult.word].
    now rewrite map_app, concat_app.
Qed.

(** Formatting the words of two results together is joining the two formatted
    results with the separator that the orchestrator puts between chunks:
    nothing in the bracket and ruby styles, and any unrecognised style; a
    line feed in the roman style, where both word lists must be non-empty. *)
Theorem format_in_two_parts (format : jsstring) (ws1 ws2 : list Word.t) :
  (format = Text.roman -> ws1 <> [] /\ ws2 <> []) ->
  formatResult (FuriganaResult.mk (ws1 ++ ws2)) format
  = formatResult (FuriganaResult.mk ws1) format
    ++ chunkSeparator format
    ++ formatResult (FuriganaResult.mk ws2) format.
Proof. exact (format_in_two_parts_aux format ws1 ws2). Qed.

Lemma format_in_two_parts_witness :
  formatResult
    (FuriganaResult.mk ([Sample.kanji_word] ++ [Sample.kana_word]))
    Text.roman
  = formatResult (FuriganaResult.mk [Sample.kanji_word]) Text.roman
    ++ chunkSeparator Text.roman
    ++ formatResult (FuriganaResult.mk [Sample.kana_word]) Text.roman.
Proof.
  apply (format_in_two_parts Text.roman [Sample.kanji_word]
           [Sample.kana_word]).
  intros _. split; discriminate.
Defined.

(** ** Runs in which every request succeeds *)

Section Answers.
Variables (remote : Remote) (annotate : jsstring -> FuriganaResult.t).
Hypothesis Hanswers : answersWith remote annotate.
Variables (grade : option Z) (format : jsstring).

Lemma forChunks_answers (n : nat) : forall chunks i results log,
  forChunks remote grade format n chunks i results log
  = (Normal (results
             ++ map (fun c => formatResult (annotate c) format) chunks),
     log ++ map (fun c => requestBody c grade) chunks).
Proof.
  induction chunks as [|c chunks IH]; intros i results log.
  - cbn [forChunks map]. unfold ret. now rewrite !app_nil_r.
  - destruct (Hanswers log (requestBody c grade)) as (Hok & He & Hr).
    rewrite (forChunks_success remote grade format n i c chunks results log
               _ Hok He Hr).
    rewrite IH. cbn [map requestBody RequestBody.params Params.q].
    now rewrite <- !app_assoc.
Qed.

Lemma processText_answers (fuel : nat) (text : jsstring) chunks log :
  splitTextIntoChunks fuel text = Some chunks ->
  processTextWithChunking fuel remote text grade format log
  = (Normal (JS.join (chunkSeparator format)
               (map (fun c => formatResult (annotate c) format) chunks)),
     log ++ map (fun c => requestBody c grade) chunks).
Proof.
  intros H. unfold processTextWithChunking. rewrite H.
  destruct (List.length chunks =? 1) eqn:L.
  - apply Nat.eqb_eq in L.
    destruct chunks as [|c [|d chunks]]; try discriminate.
    pose proof (splitTextIntoChunks_concat _ _ _ H) as Hc.
    cbn [concat] in Hc. rewrite app_nil_r in Hc. subst c.
    destruct (Hanswers log (requestBody text grade)) as (Hok & He & Hr).
    unfold bind. rewrite getFurigana_ok by assumption.
    rewrite He, Hr. reflexivity.
  - unfold bind. rewrite forChunks_answers. cbn [app]. unfold ret.
    unfold chunkSeparator. now destruct (JS.eqb format Text.roman).
Qed.
End Answers.



Lemma spelling_service_answers :
  answersWith Scenario.spelling_service Scenario.spell.
Proof. intros log body. repeat split. Qed.

Lemma spell_compositional : compositional Scenario.spell.
Proof.
  intros a b. unfold Scenario.spell. cbn [FuriganaResult.word].
  apply map_app.
Qed.



(** ** Chunking is invisible when the service is compositional *)

Lemma compositional_nil (annotate : jsstring -> FuriganaResult.t) :
  compositional annotate -> FuriganaResult.word (annotate []) = [].
Proof.
  intros H. specialize (H [] []). cbn [app] in H.
  apply (f_equal (@List.length Word.t)) in H. rewrite length_app in H.
  destruct (FuriganaResult.word (annotate [])); [reflexivity|].
  cbn [List.length] in H. lia.
Qed.

Lemma join_chunk_formats (annotate : jsstring -> FuriganaResult.t)
    (format : jsstring) :
  compositional annotate ->
  forall chunks,
    chunks <> [] ->
    (format = Text.roman ->
     Forall (fun c => FuriganaResult.word (annotate c) <> []) chunks) ->
    JS.join (chunkSeparator format)
      (map (fun c => formatResult (annotate c) format) chunks)
    = formatResult (annotate (concat chunks)) format.
Proof.
  intros Hcomp. induction chunks as [|c chunks IH]; [congruence|].
  intros _ Hwords. destruct chunks as [|d chunks].
  - cbn [map JS.join concat]. now rewrite app_nil_r.
  - change (JS.join (chunkSeparator format)
              (map (fun c0 => formatResult (annotate c0) format)
                 (c :: d :: chunks)))
      with (formatResult (annotate c) format ++ chunkSeparator format
            ++ JS.join (chunkSeparator format)
                 (map (fun c0 => formatResult (annotate c0) format)
                    (d :: chunks))).
    rewrite IH.
    + cbn [concat].
      rewrite (formatResult_word (annotate (c ++ d ++ concat chunks))
                 (FuriganaResult.mk
                    (FuriganaResult.word (annotate c)
                     ++ FuriganaResult.word (annotate (d ++ concat chunks))))
                 format) by apply Hcomp.
      rewrite format_in_two_parts_aux.
      * now rewrite !formatResult_eta.
      * intros E. specialize (Hwords E). split.
        -- exact (Forall_inv Hwords).
        -- rewrite Hcomp. intros E0. apply app_eq_nil in E0 as [E0 _].
           exact (Forall_inv (Forall_inv_tail Hwords) E0).
    + discriminate.
    + intros E. exact (Forall_inv_tail (Hwords E)).
Qed.

(** With a service that answers every request and whose words for a
    concatenation are the words for its parts, the output for a text is the
    formatted answer for the whole text: the chunking cannot be seen. In the
    roman style this takes a service that finds a word in every non-empty
    text. *)
Theorem chunking_is_invisible (fuel : nat) (remote : Remote)
    (annotate : jsstring -> FuriganaResult.t) text grade format log :
  answersWith remote annotate ->
  compositional annotate ->
  (format = Text.roman ->
   forall c, c <> [] -> FuriganaResult.word (annotate c) <> []) ->
  List.length text < fuel ->
  fst (processTextWithChunking fuel remote text grade format log)
  = Normal (formatResult (annotate text) format).
Proof.
  intros Hanswers Hcomp Hroman Hfuel.
  destruct (splitTextIntoChunks_some fuel text Hfuel) as [chunks H].
  rewrite (processText_answers remote annotate Hanswers grade format fuel
             text chunks log H).
  cbn [fst]. f_equal.
  destruct text as [|u r] eqn:Et.
  - rewrite (text_that_fits_is_one_chunk fuel []) in H
      by (rewrite byteLength_nil; lia).
    injection H as <-. reflexivity.
  - rewrite <- Et in *.
    assert (Hne : nonEmpty text) by (rewrite Et; discriminate).
    pose proof (splitTextIntoChunks_concat _ _ _ H) as Hc.
    rewrite <- Hc. apply join_chunk_formats; [assumption| |].
    + intros ->. cbn in Hc. now apply Hne.
    + intros E.
      assert (Hall : Forall nonEmpty chunks)
        by (apply (splitTextIntoChunks_Forall nonEmpty fuel text chunks);
            auto).
      eapply Forall_impl; [|exact Hall].
      intros c Hcne. now apply Hroman.
Qed.

Lemma chunking_is_invisible_witness :
  answersWith Scenario.spelling_service Scenario.spell
  /\ compositional Scenario.spell
  /\ List.length Sample.three_sentences < 1803
  /\ fst (processTextWithChunking 1803 Scenario.spelling_service
            Sample.three_sentences None Text.roman [])
     = Normal (formatResult (Scenario.spell Sample.three_sentences)
                 Text.roman).
Proof.
  assert (H : List.length Sample.three_sentences < 1803)
    by (apply Nat.ltb_lt; vm_compute; reflexivity).
  split; [exact spelling_service_answers|].
  split; [exact spell_compositional|]. split; [exact H|].
  apply (chunking_is_invisible 1803 Scenario.spelling_service Scenario.spell
           Sample.three_sentences None Text.roman []
           spelling_service_answers spell_compositional); [|exact H].
  intros _ c Hc. unfold Scenario.spell. cbn [FuriganaResult.word].
  now apply map_not_nil.
Defined.

(** ** The requests of a run, whatever the service does *)

Lemma forChunks_requests (remote : Remote) grade format n :
  forall chunks i results log,
  exists k,
    k <= List.length chunks
    /\ snd (forChunks remote grade format n chunks i results log)
       = log ++ map (fun c => requestBody c grade) (firstn k chunks)
    /\ (forall out,
           fst (forChunks remote grade format n chunks i results log)
           = Normal out -> k = List.length chunks)
    /\ fst (forChunks remote grade format n chunks i results log)
       <> OutOfFuel
    /\ (chunks <> [] -> 1 <= k).
Proof.
  induction chunks as [|c chunks IH]; intros i results log.
  - exists 0. cbn [forChunks firstn map List.length]. unfold ret.
    cbn [fst snd]. rewrite app_nil_r.
    repeat split; try (intros; (lia || congruence || reflexivity)).
  - destruct (Response.ok (remote log (requestBody c grade))) eqn:Hok.
    + destruct (ApiResponse.error
                  (Response.json (remote log (requestBody c grade))))
        as [e|] eqn:He.
      * exists 1.
        rewrite (forChunks_service_error remote grade format n i c chunks
                   results log e Hok He).
        cbn [fst snd firstn map List.length].
        repeat split; try (intros; (lia || congruence || reflexivity)).
      * destruct (ApiResponse.result
                    (Response.json (remote log (requestBody c grade))))
          as [r|] eqn:Hr.
        -- rewrite (forChunks_success remote grade format n i c chunks
                      results log r Hok He Hr).
           destruct (IH (i + 1) (results ++ [formatResult r format])
                       (log ++ [requestBody c grade]))
             as (k & Hk & Hlog & Hall & Hfuel & _).
           exists (S k). cbn [firstn map List.length].
           rewrite Hlog, <- app_assoc. cbn [app].
           repeat split; try assumption; try lia.
           intros out Hout. now rewrite (Hall out Hout).
        -- exists 1.
           rewrite (forChunks_missing_result remote grade format n i c
                      chunks results log Hok He Hr).
           cbn [fst snd firstn map List.length].
           repeat split; try (intros; (lia || congruence || reflexivity)).
    + exists 1.
      rewrite (forChunks_http_failure remote grade format n i c chunks
                 results log Hok).
      cbn [fst snd firstn map List.length].
      repeat split; try (intros; (lia || congruence || reflexivity)).
Qed.

Lemma processText_requests (fuel : nat) (remote : Remote) text grade format
    log chunks :
  splitTextIntoChunks fuel text = Some chunks ->
  exists k,
    1 <= k <= List.length chunks
    /\ snd (processTextWithChunking fuel remote text grade format log)
       = log ++ map (fun c => requestBody c grade) (firstn k chunks)
    /\ (forall out,
           fst (processTextWithChunking fuel remote text grade format log)
           = Normal out -> k = List.length chunks)
    /\ fst (processTextWithChunking fuel remote text grade format log)
       <> OutOfFuel.
Proof.
  intros H. unfold processTextWithChunking. rewrite H.
  destruct (List.length chunks =? 1) eqn:L.
  - apply Nat.eqb_eq in L.
    destruct chunks as [|c [|d chunks]]; try discriminate.
    pose proof (splitTextIntoChunks_concat _ _ _ H) as Hc.
    cbn [concat] in Hc. rewrite app_nil_r in Hc. subst c.
    exists 1. cbn [firstn map List.length]. unfold bind.
    destruct (Response.ok (remote log (requestBody text grade))) eqn:Hok.
    + rewrite getFurigana_ok by assumption.
      destruct (ApiResponse.error _); [|destruct (ApiResponse.result _)];
        unfold throw, ret; cbn [fst snd]; close_cases.
    + rewrite getFurigana_http_failure by assumption.
      cbn [fst snd]. close_cases.
  - assert (Hne : chunks <> []).
    { intros ->. pose proof (splitTextIntoChunks_concat _ _ _ H) as Hc.
      cbn in Hc. subst text.
      rewrite (text_that_fits_is_one_chunk fuel []) in H
        by (rewrite byteLength_nil; lia).
      discriminate. }
    destruct (forChunks_requests remote grade format (List.length chunks)
                chunks 0 [] log) as (k & Hk & Hlog & Hall & Hfuel & H1).
    exists k. unfold bind.
    destruct (forChunks remote grade format (List.length chunks) chunks 0 []
                log) as [[results| |] log'] eqn:F;
      cbn [fst snd] in *; unfold ret; cbn [fst snd].
    + close_cases. now apply (Hall results).
    + close_cases.
    + congruence.
Qed.



(** ** The handler *)

Lemma formatOrRuby_spec (output_format : option jsstring) :
  match output_format with
  | Some f => if JS.truthy f then f else Text.ruby
  | None => Text.ruby
  end = formatOrRuby output_format.
Proof. now destruct output_format as [[|u f]|]. Qed.

(** With enough fuel the handler returns a result and never throws. The run
    it answers for is the run with the format [output_format], or ["ruby"]
    when that is absent or empty: the result is the formatted text of that
    run when it returns normally, and otherwise, with [isError], the message
    of its error after the words for "an error occurred". *)
Theorem handler_always_answers (fuel : nat) (remote : Remote)
    (args : ToolArgs.t) log :
  List.length (ToolArgs.text args) < fuel ->
  let run :=
    processTextWithChunking fuel remote (ToolArgs.text args)
      (ToolArgs.grade args) (formatOrRuby (ToolArgs.output_format args))
      log in
  (ToolArgs.output_format args = None ->
   formatOrRuby (ToolArgs.output_format args) = JS.lit "ruby")
  /\ (ToolArgs.output_format args = Some [] ->
      formatOrRuby (ToolArgs.output_format args) = JS.lit "ruby")
  /\ (forall f, f <> [] -> ToolArgs.output_format args = Some f ->
                formatOrRuby (ToolArgs.output_format args) = f)
  /\ ((exists out,
          fst run = Normal out
          /\ gen_furigana fuel remote args log
             = (Normal (ToolResult.mk out false), snd run))
      \/ (exists message,
             fst run = Throw message
             /\ gen_furigana fuel remote args log
                = (Normal (ToolResult.mk
                             (Text.error_occurred ++ JS.lit ": " ++ message)
                             true), snd run))).
Proof.
  intros Hfuel run.
  split; [now intros ->|]. split; [now intros ->|].
  split; [intros [|u f] Hf ->; [congruence|reflexivity]|].
  unfold gen_furigana. rewrite formatOrRuby_spec. fold run.
  destruct (splitTextIntoChunks_some fuel (ToolArgs.text args) Hfuel)
    as [chunks H].
  destruct (processText_requests fuel remote (ToolArgs.text args)
              (ToolArgs.grade args)
              (formatOrRuby (ToolArgs.output_format args)) log chunks H)
    as (k & _ & _ & _ & Hnot).
  fold run in Hnot.
  destruct run as [[out|message|] log']; cbn [fst snd] in *;
    [left; now exists out|right; now exists message|congruence].
Qed.

Lemma handler_always_answers_witness :
  List.length Sample.three_sentences < 1803
  /\ gen_furigana 1803 Sample.second_unavailable
       (ToolArgs.mk Sample.three_sentences None (Some (JS.lit "bracket"))) []
     = (Normal (ToolResult.mk
                  (Text.error_occurred
                   ++ JS.lit ": HTTP error: 503 Service Unavailable") true),
        [requestBody Sample.sentence1 None;
         requestBody Sample.sentence2 None]).
Proof.
  assert (H : List.length Sample.three_sentences < 1803)
    by (apply Nat.ltb_lt; vm_compute; reflexivity).
  split; [exact H|].
  destruct (handler_always_answers 1803 Sample.second_unavailable
              (ToolArgs.mk Sample.three_sentences None
                 (Some (JS.lit "bracket"))) [] H)
    as (_ & _ & _ & [(out & Hrun & Hgen)|(message & Hrun & Hgen)]).
  - vm_compute in Hrun. discriminate.
  - rewrite Hgen. vm_compute in Hrun. injection Hrun as <-.
    vm_compute. reflexivity.
Defined.

(** ** The first version of the handler *)


(** Past the safe integers the template prints what Number::toString gives:
    at the error code 10^21, the exponent form. *)
Example first_handler_large_code :
  fst (V1.gen_furigana
         (fun _ _ =>
            Response.mk true 200 (JS.lit "OK")
              (ApiResponse.mk (JS.lit "1") (JS.lit "2.0") None
                 (Some (ApiError.mk (10 ^ 21) (JS.lit "x")))))
         (V1.mkArgs Sample.short_text None None) [])
  = Normal (ToolResult.mk
              (Text.api_error ++ JS.lit ": x (code: 1e+21)") true).
Proof. vm_compute. reflexivity. Qed.


(** On a text that fits in one request the later handler, called with the
    format that stands for [include_roman], sends the same request as the
    first handler and returns the same error flag; the two texts are equal
    on success and on an HTTP failure, and for a service error or a missing
    result the later text is the first one after the words for "an error
    occurred". *)
Theorem handlers_agree_on_short_texts (fuel : nat) (remote : Remote)
    text grade include_roman log :
  byteLength text <= MAX_CHUNK_SIZE ->
  exists t1 t2 e log',
    V1.gen_furigana remote (V1.mkArgs text grade include_roman) log
    = (Normal (ToolResult.mk t1 e), log')
    /\ gen_furigana fuel remote
         (ToolArgs.mk text grade (Some (V1.format_of include_roman))) log
       = (Normal (ToolResult.mk t2 e), log')
    /\ log' = log ++ [requestBody text grade]
    /\ (e = false -> t2 = t1)
    /\ (Response.ok (remote log (requestBody text grade)) = false ->
        t2 = t1)
    /\ (e = true ->
        Response.ok (remote log (requestBody text grade)) = true ->
        t2 = Text.error_occurred ++ JS.lit ": " ++ t1).
Proof.
  intros Hfit. unfold V1.gen_furigana, gen_furigana, processTextWithChunking.
  cbn [V1.text V1.grade V1.include_roman ToolArgs.text ToolArgs.grade
       ToolArgs.output_format].
  rewrite (text_that_fits_is_one_chunk fuel text Hfit).
  cbn [List.length Nat.eqb]. unfold bind.
  assert (Hfmt : (if JS.truthy (V1.format_of include_roman)
                  then V1.format_of include_roman else Text.ruby)
                 = V1.format_of include_roman)
    by (unfold V1.format_of; now destruct (V1.flag include_roman)).
  rewrite Hfmt.
  destruct (Response.ok (remote log (requestBody text grade))) eqn:Hok.
  - rewrite getFurigana_ok by assumption.
    destruct (ApiResponse.error _) as [err|].
    + do 4 eexists. unfold throw.
      split; [reflexivity|]. split; [reflexivity|].
      repeat split; intros; try discriminate; reflexivity.
    + destruct (ApiResponse.result _) as [r|].
      * do 4 eexists. unfold ret.
        split; [reflexivity|]. split; [reflexivity|].
        repeat split; intros; try discriminate;
          unfold V1.format_of, V1.formatResult;
          destruct (V1.flag include_roman); reflexivity.
      * do 4 eexists. unfold throw.
        split; [reflexivity|]. split; [reflexivity|].
        repeat split; intros; try discriminate; reflexivity.
  - rewrite getFurigana_http_failure by assumption.
    do 4 eexists.
    split; [reflexivity|]. split; [reflexivity|].
    repeat split; intros; try discriminate; reflexivity.
Qed.

Lemma handlers_agree_on_short_texts_witness :
  byteLength Sample.reading_text <= MAX_CHUNK_SIZE
  /\ exists t1 t2 e log',
       V1.gen_furigana Sample.reading_service
         (V1.mkArgs Sample.reading_text None None) []
       = (Normal (ToolResult.mk t1 e), log')
       /\ gen_furigana 0 Sample.reading_service
            (ToolArgs.mk Sample.reading_text None
               (Some (V1.format_of None))) []
          = (Normal (ToolResult.mk t2 e), log')
       /\ log' = [] ++ [requestBody Sample.reading_text None]
       /\ (e = false -> t2 = t1)
       /\ (Response.ok
             (Sample.reading_service [] (requestBody Sample.reading_text None))
           = false -> t2 = t1)
       /\ (e = true ->
           Response.ok
             (Sample.reading_service [] (requestBody Sample.reading_text None))
           = true ->
           t2 = Text.error_occurred ++ JS.lit ": " ++ t1).
Proof.
  assert (H : byteLength Sample.reading_text <= MAX_CHUNK_SIZE)
    by (apply Nat.leb_le; vm_compute; reflexivity).
  split; [exact H|].
  exact (handlers_agree_on_short_texts 0 Sample.reading_service
           Sample.reading_text None None [] H).
Defined.
